(** * iamy: the resource <-> file mapping engine

    A shallow embedding of the Go package [iamy] (account identity codec,
    path codec, YAML loader and dumper) together with the properties its
    specification states about it.

    Go strings are byte strings; they are modelled as [string] (a list of
    [ascii], one per byte).  The two regular expressions of the package only
    mention ASCII literals and the classes [.], [\w], [\d]; on a byte string
    the class [.] is "any byte but a newline", which cuts a UTF-8 text at the
    same places as Go's rune-wise matching does, because the literal bytes of
    the patterns never occur inside a multi-byte rune. *)

From Stdlib Require Import String Ascii List Arith Lia Bool Permutation.
From stdpp Require Import base option gmap strings list fin_maps.

Open Scope string_scope.

(* stdpp keeps [simpl] from unfolding string append; the proofs below
   compute with it on literal prefixes. *)
#[local] Arguments String.append !_ _ / : simpl nomatch.

(** ** Byte strings *)

Fixpoint str_drop (n : nat) (s : string) : string :=
  match n, s with
  | O, _ => s
  | S n', String _ s' => str_drop n' s'
  | S _, EmptyString => EmptyString
  end.

Fixpoint str_take (n : nat) (s : string) : string :=
  match n, s with
  | O, _ => EmptyString
  | S n', String c s' => String c (str_take n' s')
  | S _, EmptyString => EmptyString
  end.

Fixpoint str_all (p : ascii -> bool) (s : string) : bool :=
  match s with
  | EmptyString => true
  | String c s' => p c && str_all p s'
  end.

Definition nonempty (s : string) : bool :=
  match s with EmptyString => false | String _ _ => true end.

(** [strings.HasPrefix(s, prefix)] *)
Definition HasPrefix (s pre : string) : bool := String.prefix pre s.

(** [strings.TrimPrefix(s, prefix)] *)
Definition TrimPrefix (s pre : string) : string :=
  if HasPrefix s pre then str_drop (String.length pre) s else s.

(** [occurs pat s]: [pat] occurs somewhere in [s]. *)
Fixpoint occurs (pat s : string) : bool :=
  String.prefix pat s ||
  match s with
  | EmptyString => false
  | String _ s' => occurs pat s'
  end.

(** ** Outcomes of Go calls

    A call either returns or panics; a panic that nobody recovers ends the
    process. *)

Inductive outcome (A : Type) : Type :=
| Returns (a : A)
| Panics (msg : string).
Arguments Returns {A} a.
Arguments Panics {A} msg.

Definition returned {A} (o : outcome A) : Prop := exists a, o = Returns a.

Definition obind {A B} (o : outcome A) (f : A -> outcome B) : outcome B :=
  match o with
  | Returns a => f a
  | Panics m => Panics m
  end.

(** ** Regular expressions, as [regexp] runs them

    Go's [regexp] returns the match a backtracking search finds first
    (leftmost-first, greedy repetition).  Only the constructs the two
    patterns of the package use are modelled; repetition is over a character
    class, as in both patterns.  Capture groups carry the index Go gives
    them (the order of their opening parentheses). *)

Inductive regex : Type :=
| Bol                              (* ^ *)
| Eol                              (* $ *)
| Lit (c : ascii)
| Cat (r1 r2 : regex)
| Alt (r1 r2 : regex)              (* r1|r2, r1 tried first *)
| Opt (r : regex)                  (* r?, r tried first *)
| Star (p : ascii -> bool)         (* [class]*, longest first *)
| Plus (p : ascii -> bool)         (* [class]+, longest first *)
| Capture (i : nat) (name : string) (r : regex).   (* (r) or (?P<name>r) *)

(** A literal string, character by character; the empty literal matches
    the empty string. *)
Fixpoint lits (s : string) : regex :=
  match s with
  | EmptyString => Opt Eol
  | String c EmptyString => Lit c
  | String c s' => Cat (Lit c) (lits s')
  end.

Definition caps := list (nat * string).

Fixpoint cap_get (i : nat) (cs : caps) : string :=
  match cs with
  | [] => ""
  | (j, v) :: cs' => if Nat.eqb i j then v else cap_get i cs'
  end.

(** Greedy repetition of a class: consume as long as possible, then give
    characters back one at a time until the continuation succeeds. *)
Fixpoint star {R : Type} (p : ascii -> bool) (s : string)
         (k : string -> option R) : option R :=
  match s with
  | String c s' =>
      if p c then
        match star p s' k with
        | Some r => Some r
        | None => k s
        end
      else k s
  | EmptyString => k s
  end.

(** The text consumed between the remaining input [s] and the later
    remaining input [s']. *)
Definition consumed (s s' : string) : string :=
  str_take (String.length s - String.length s') s.

Section Run.
Variable text : string.

Fixpoint run (r : regex) (s : string) (cs : caps)
         (k : string -> caps -> option caps) : option caps :=
  match r with
  | Bol => if Nat.eqb (String.length s) (String.length text) then k s cs else None
  | Eol => match s with EmptyString => k s cs | String _ _ => None end
  | Lit c =>
      match s with
      | String c' s' => if Ascii.eqb c c' then k s' cs else None
      | EmptyString => None
      end
  | Cat r1 r2 => run r1 s cs (fun s' cs' => run r2 s' cs' k)
  | Alt r1 r2 =>
      match run r1 s cs k with
      | Some x => Some x
      | None => run r2 s cs k
      end
  | Opt r1 =>
      match run r1 s cs k with
      | Some x => Some x
      | None => k s cs
      end
  | Star p => star p s (fun s' => k s' cs)
  | Plus p =>
      match s with
      | String c s' => if p c then star p s' (fun s'' => k s'' cs) else None
      | EmptyString => None
      end
  | Capture i _ r1 => run r1 s cs (fun s' cs' => k s' ((i, consumed s s') :: cs'))
  end.

(** Leftmost: try every start offset in turn. *)
Fixpoint search (r : regex) (s : string) : option caps :=
  match run (Capture 0 "" r) s [] (fun _ cs => Some cs) with
  | Some cs => Some cs
  | None =>
      match s with
      | String _ s' => search r s'
      | EmptyString => None
      end
  end.
End Run.

(** The names of the groups, in the order of their indices. *)
Fixpoint group_names (r : regex) : list string :=
  match r with
  | Cat r1 r2 | Alt r1 r2 => group_names r1 ++ group_names r2
  | Opt r1 => group_names r1
  | Capture _ name r1 => name :: group_names r1
  | _ => []
  end.

(** [r.SubexpNames()]: index 0 is the whole match and has the empty name. *)
Definition SubexpNames (r : regex) : list string := "" :: group_names r.

Definition NumSubexp (r : regex) : nat := length (group_names r).

(** [r.FindStringSubmatch(s)]: [None] is Go's nil slice; otherwise one string
    per group, [""] for a group that took no part in the match. *)
Definition FindStringSubmatch (r : regex) (s : string) : option (list string) :=
  match search s r s with
  | Some cs => Some (map (fun i => cap_get i cs) (seq 0 (S (NumSubexp r))))
  | None => None
  end.

(** [r.FindAllStringSubmatch(s, -1)] for a pattern anchored with [^]: a
    second match would have to start after the first one, where [^] fails,
    so there is at most one. *)
Definition FindAllStringSubmatch (r : regex) (s : string) : list (list string) :=
  match FindStringSubmatch r s with
  | Some m => [m]
  | None => []
  end.

(** Character classes. *)
Definition is_digit (c : ascii) : bool :=
  let n := nat_of_ascii c in ((48 <=? n) && (n <=? 57))%nat.

Definition is_word (c : ascii) : bool :=
  let n := nat_of_ascii c in
  (((48 <=? n) && (n <=? 57)) || ((65 <=? n) && (n <=? 90)) ||
   ((97 <=? n) && (n <=? 122)) || (n =? 95))%nat.

Definition is_word_or_hyphen (c : ascii) : bool :=
  is_word c || Ascii.eqb c "-".

(** [.] without the [s] flag: any character but a newline. *)
Definition is_dot (c : ascii) : bool := negb (Ascii.eqb c "010").

(** ** Account identity codec *)

Record Account : Type := mkAccount { Id : string; Alias : string }.

(** [func (a Account) String() string] *)
Definition Account_String (a : Account) : string :=
  if nonempty (Alias a) then Alias a +:+ "-" +:+ Id a else Id a.

(** [regexp.MustCompile(`^(([\w-]+)-)?(\d+)$`)] *)
Definition accountReg : regex :=
  Cat Bol
   (Cat (Opt (Capture 1 "" (Cat (Capture 2 "" (Plus is_word_or_hyphen)) (Lit "-"))))
    (Cat (Capture 3 "" (Plus is_digit)) Eol)).

Definition cant_create (s : string) : string :=
  "Can't create account name from " +:+ s.

(** [func NewAccountFromString(s string) *Account] *)
Definition NewAccountFromString (s : string) : outcome Account :=
  match FindAllStringSubmatch accountReg s with
  | [] => Panics (cant_create s)
  | m :: _ =>
      if Nat.eqb (length m) 4 then
        Returns {| Id := nth 3 m ""; Alias := nth 2 m "" |}
      else if Nat.eqb (length m) 3 then
        Returns {| Id := nth 1 m ""; Alias := "" |}
      else Panics (cant_create s)
  end.

(** [func (a *Account) arnFor(key, path, name string) string] *)
Definition arnFor (a : Account) (key path name : string) : string :=
  "arn:aws:iam::" +:+ Id a +:+ ":" +:+ key +:+ path +:+ name.

(** [func (a *Account) policyArnFromString(nameOrArn string) string] *)
Definition policyArnFromString (a : Account) (nameOrArn : string) : string :=
  if HasPrefix nameOrArn "arn:" then nameOrArn
  else "arn:aws:iam::" +:+ Id a +:+ ":policy/" +:+ nameOrArn.

(** [func (a *Account) normalisePolicyArn(arn string) string] *)
Definition normalisePolicyArn (a : Account) (arn : string) : string :=
  TrimPrefix arn ("arn:aws:iam::" +:+ Id a +:+ ":policy/").

(** ** Resource model *)

(** The values a YAML or JSON document holds ([interface{}] in the source).
    A number is kept as its literal: nothing in the package computes with
    one. *)
#[warnings="-register-all"] Inductive value : Type :=
| VNull
| VBool (b : bool)
| VNumber (literal : string)
| VString (s : string)
| VSeq (items : list value)
| VMap (entries : list (string * value)).

(** [type PolicyDocument yamljsonmap.StringKeyMap], a map from strings to
    values. *)
Definition PolicyDocument : Type := list (string * value).

Record InlinePolicy : Type := mkInlinePolicy {
  ip_Name : string;
  ip_Policy : PolicyDocument
}.

Record User : Type := mkUser {
  u_Name : string;
  u_Path : string;
  u_Groups : list string;
  u_InlinePolicies : list InlinePolicy;
  u_Policies : list string
}.

Record Group : Type := mkGroup {
  g_Name : string;
  g_Path : string;
  g_InlinePolicies : list InlinePolicy;
  g_Policies : list string
}.

Record Policy : Type := mkPolicy {
  p_Name : string;
  p_Path : string;
  p_Policy : PolicyDocument
}.

Record Role : Type := mkRole {
  r_Name : string;
  r_Path : string;
  r_AssumeRolePolicyDocument : PolicyDocument;
  r_InlinePolicies : list InlinePolicy;
  r_Policies : list string
}.

(** The four implementations of the interface [AwsResource]. *)
Inductive AwsResource : Type :=
| RUser (u : User)
| RGroup (g : Group)
| RRole (r : Role)
| RPolicy (p : Policy).

Definition Type_ (r : AwsResource) : string :=
  match r with
  | RUser _ => "user"
  | RGroup _ => "group"
  | RRole _ => "role"
  | RPolicy _ => "policy"
  end.

Definition NameString (r : AwsResource) : string :=
  match r with
  | RUser u => u_Name u
  | RGroup g => g_Name g
  | RRole r => r_Name r
  | RPolicy p => p_Name p
  end.

Definition PathString (r : AwsResource) : string :=
  match r with
  | RUser u => u_Path u
  | RGroup g => g_Path g
  | RRole r => r_Path r
  | RPolicy p => p_Path p
  end.

(** [func Arn(r AwsResource, a *Account) string] *)
Definition Arn (r : AwsResource) (a : Account) : string :=
  arnFor a (Type_ r) (PathString r) (NameString r).

(** ** Path codec *)

(** [regexp.MustCompile(`^(?P<account>.+)/(?P<entity>(user|group|policy|role))(?P<path>.*/)(?P<name>.+)\.yaml$`)] *)
Definition entityAlt : regex :=
  Alt (lits "user") (Alt (lits "group") (Alt (lits "policy") (lits "role"))).

Definition yamlEnd : regex := Cat (lits ".yaml") Eol.

Definition nameRest : regex := Cat (Capture 5 "name" (Plus is_dot)) yamlEnd.

Definition pathRest : regex :=
  Cat (Capture 4 "path" (Cat (Star is_dot) (Lit "/"))) nameRest.

Definition entityRest : regex :=
  Cat (Capture 2 "entity" (Capture 3 "" entityAlt)) pathRest.

Definition pathTail : regex := Cat (Lit "/") entityRest.

Definition pathRegex : regex :=
  Cat Bol (Cat (Capture 1 "account" (Plus is_dot)) pathTail).

(** The template
    ["{{.Account}}/{{.Resource.Type}}{{.Resource.Path}}{{.Resource.Name}}.yaml"]
    executed by [renderPath]: [.Account] prints through [Account.String], the
    other three are the resource's [Type] method and its [Path] and [Name]
    fields.  Executing it on these values cannot fail. *)
Definition renderPath (a : Account) (r : AwsResource) : string :=
  Account_String a +:+ "/" +:+ Type_ r +:+ PathString r +:+ NameString r +:+ ".yaml".

(** [func namedMatch(r *regexp.Regexp, s string) (bool, map[string]string)];
    [None] stands for [(false, nil)].  The loop stores [match[i]] under the
    name of group [i], later indices overwriting earlier ones of the same
    name. *)
Fixpoint name_all (names : list string) (m : list string)
         (result : gmap string string) : gmap string string :=
  match names, m with
  | name :: names', v :: m' => name_all names' m' (<[name := v]> result)
  | _, _ => result
  end.

Definition namedMatch (r : regex) (s : string) : option (gmap string string) :=
  match FindStringSubmatch r s with
  | None => None
  | Some m => Some (name_all (SubexpNames r) m ∅)
  end.

(** [result[key]]: a missing key reads as the empty string. *)
Definition at_key (result : gmap string string) (key : string) : string :=
  default "" (result !! key).

(** ** Aggregate account data *)

Record AccountData : Type := mkAccountData {
  ad_Account : Account;
  Users : list User;
  Groups : list Group;
  Roles : list Role;
  Policies : list Policy
}.

(** [func NewAccountData(account string) *AccountData] *)
Definition NewAccountData (account : string) : outcome AccountData :=
  obind (NewAccountFromString account) (fun a =>
  Returns {| ad_Account := a; Users := []; Groups := []; Roles := []; Policies := [] |}).

Definition addUser (u : User) (a : AccountData) : AccountData :=
  {| ad_Account := ad_Account a; Users := Users a ++ [u]; Groups := Groups a;
     Roles := Roles a; Policies := Policies a |}.

Definition addGroup (g : Group) (a : AccountData) : AccountData :=
  {| ad_Account := ad_Account a; Users := Users a; Groups := Groups a ++ [g];
     Roles := Roles a; Policies := Policies a |}.

Definition addRole (r : Role) (a : AccountData) : AccountData :=
  {| ad_Account := ad_Account a; Users := Users a; Groups := Groups a;
     Roles := Roles a ++ [r]; Policies := Policies a |}.

Definition addPolicy (p : Policy) (a : AccountData) : AccountData :=
  {| ad_Account := ad_Account a; Users := Users a; Groups := Groups a;
     Roles := Roles a; Policies := Policies a ++ [p] |}.

(** The resources of an account, in the order [Dump] writes them. *)
Definition resources (a : AccountData) : list AwsResource :=
  map RUser (Users a) ++ map RPolicy (Policies a) ++
  map RGroup (Groups a) ++ map RRole (Roles a).

(** The loop shared by the four lookups: the first element the test
    takes, or nothing. *)
Fixpoint first_match {T : Type} (test : T -> bool) (l : list T) : option T :=
  match l with
  | [] => None
  | x :: rest => if test x then Some x else first_match test rest
  end.

(** [func (ad *AccountData) FindUserByName(name, path string) (bool, *User)];
    [None] stands for [(false, nil)], and the pointer returned is to a copy
    of the element. *)
Definition FindUserByName (ad : AccountData) (name path : string) : option User :=
  first_match (fun u => String.eqb (u_Name u) name && String.eqb (u_Path u) path)
              (Users ad).

(** [func (ad *AccountData) FindGroupByName(name, path string) (bool, *Group)] *)
Definition FindGroupByName (ad : AccountData) (name path : string) : option Group :=
  first_match (fun g => String.eqb (g_Name g) name && String.eqb (g_Path g) path)
              (Groups ad).

(** [func (ad *AccountData) FindRoleByName(name, path string) (bool, *Role)] *)
Definition FindRoleByName (ad : AccountData) (name path : string) : option Role :=
  first_match (fun r => String.eqb (r_Name r) name && String.eqb (r_Path r) path)
              (Roles ad).

(** [func (ad *AccountData) FindPolicyByName(name, path string) (bool, *Policy)] *)
Definition FindPolicyByName (ad : AccountData) (name path : string) : option Policy :=
  first_match (fun p => String.eqb (p_Name p) name && String.eqb (p_Path p) path)
              (Policies ad).

(** ** The YAML form of a resource

    What [yaml.Marshal] writes for a struct is fixed by the field tags:
    [yaml:"-"] leaves the field out, [yaml:"Key,omitempty"] leaves it out
    when it is empty. *)

Inductive yaml_tag : Type :=
| TagSkip                                   (* yaml:"-" *)
| TagKey (key : string) (omitempty : bool). (* yaml:"key" / "key,omitempty" *)

Definition is_empty (v : value) : bool :=
  match v with
  | VNull | VSeq [] | VMap [] | VString EmptyString => true
  | _ => false
  end.

Fixpoint encode_struct (fields : list (yaml_tag * value)) : list (string * value) :=
  match fields with
  | [] => []
  | (TagSkip, _) :: fs => encode_struct fs
  | (TagKey k oe, v) :: fs =>
      if oe && is_empty v then encode_struct fs else (k, v) :: encode_struct fs
  end.

Definition strings_value (l : list string) : value := VSeq (map VString l).

Definition InlinePolicy_value (ip : InlinePolicy) : value :=
  VMap (encode_struct [(TagKey "Name" false, VString (ip_Name ip));
                       (TagKey "Policy" false, VMap (ip_Policy ip))]).

Definition inline_value (l : list InlinePolicy) : value :=
  VSeq (map InlinePolicy_value l).

(** The fields of each struct with their tags, in declaration order. *)
Definition struct_fields (r : AwsResource) : list (yaml_tag * value) :=
  match r with
  | RUser u =>
      [(TagSkip, VString (u_Name u));
       (TagSkip, VString (u_Path u));
       (TagKey "Groups" true, strings_value (u_Groups u));
       (TagKey "InlinePolicies" true, inline_value (u_InlinePolicies u));
       (TagKey "Policies" true, strings_value (u_Policies u))]
  | RGroup g =>
      [(TagSkip, VString (g_Name g));
       (TagSkip, VString (g_Path g));
       (TagKey "InlinePolicies" true, inline_value (g_InlinePolicies g));
       (TagKey "Policies" true, strings_value (g_Policies g))]
  | RPolicy p =>
      [(TagSkip, VString (p_Name p));
       (TagSkip, VString (p_Path p));
       (TagKey "Policy" false, VMap (p_Policy p))]
  | RRole r =>
      [(TagSkip, VString (r_Name r));
       (TagSkip, VString (r_Path r));
       (TagKey "AssumeRolePolicyDocument" false, VMap (r_AssumeRolePolicyDocument r));
       (TagKey "InlinePolicies" true, inline_value (r_InlinePolicies r));
       (TagKey "Policies" true, strings_value (r_Policies r))]
  end.

(** The mapping at the top of the file written for a resource. *)
Definition file_body (r : AwsResource) : list (string * value) :=
  encode_struct (struct_fields r).

(** ** The world outside the package

    Go's [error] values are kept as their message. *)
Definition error : Type := string.

(** The YAML library: the text of a document tree, and the decoding of a
    file's bytes into each of the four structs. *)
Record YamlLib : Type := mkYamlLib {
  emit : value -> error + string;
  Unmarshal_User : string -> error + User;
  Unmarshal_Group : string -> error + Group;
  Unmarshal_Role : string -> error + Role;
  Unmarshal_Policy : string -> error + Policy
}.

(** [yaml.Marshal(thing)] for a resource struct. *)
Definition Marshal (y : YamlLib) (r : AwsResource) : error + string :=
  emit y (VMap (file_body r)).

(** The files of a tree: cleaned path to contents.  Directories are not
    recorded, only the regular files in them. *)
Definition files : Type := gmap string string.

Inductive os_call : Type :=
| CallRemoveAll (path : string)
| CallMkdirAll (path : string)
| CallWriteFile (path : string).

(** Paths and the operating system.  [within d p] holds when [p] is [d] or
    lies below it; [fails] says which calls the system refuses in a given
    state, and with what error. *)
Record OS : Type := mkOS {
  Join : string -> string -> string;            (* filepath.Join *)
  DirOf : string -> string;                     (* filepath.Dir *)
  within : string -> string -> bool;
  fails : files -> os_call -> option error;
  walk : string -> error + list string;         (* getFilesRecursively *)
  ReadFile : string -> error + string           (* ioutil.ReadFile *)
}.

(** ** File-tree loader *)

Section Loader.
Variable os : OS.
Variable yaml : YamlLib.
Variable Dir : string.

(** [func (f *YamlLoadDumper) unmarshalYamlFile(relativePath, entity)],
    once per struct the loader decodes into. *)
Definition unmarshalYamlFile {T : Type} (decode : string -> error + T)
           (relativePath : string) : error + T :=
  match ReadFile os (Join os Dir relativePath) with
  | inl err => inl err
  | inr data => decode data
  end.

Definition set_user (name path : string) (u : User) : User :=
  {| u_Name := name; u_Path := path; u_Groups := u_Groups u;
     u_InlinePolicies := u_InlinePolicies u; u_Policies := u_Policies u |}.

Definition set_group (name path : string) (g : Group) : Group :=
  {| g_Name := name; g_Path := path;
     g_InlinePolicies := g_InlinePolicies g; g_Policies := g_Policies g |}.

Definition set_role (name path : string) (r : Role) : Role :=
  {| r_Name := name; r_Path := path;
     r_AssumeRolePolicyDocument := r_AssumeRolePolicyDocument r;
     r_InlinePolicies := r_InlinePolicies r; r_Policies := r_Policies r |}.

Definition set_policy (name path : string) (p : Policy) : Policy :=
  {| p_Name := name; p_Path := path; p_Policy := p_Policy p |}.

(** The state of the loop of [Load]: the map [accounts] and the lines
    logged so far.  A turn of the loop goes on, makes [Load] return an
    error, or panics. *)
Definition accounts_map : Type := gmap string AccountData.

(** The [switch entity] of the loop body. *)
Definition load_entity (fp accountid entity path name : string)
           (accounts : accounts_map) : outcome (error + accounts_map) :=
  if String.eqb entity "user" then
    match unmarshalYamlFile (Unmarshal_User yaml) fp with
    | inl err => Returns (inl err)
    | inr u => Returns (inr (alter (addUser (set_user name path u)) accountid accounts))
    end
  else if String.eqb entity "group" then
    match unmarshalYamlFile (Unmarshal_Group yaml) fp with
    | inl err => Returns (inl err)
    | inr g => Returns (inr (alter (addGroup (set_group name path g)) accountid accounts))
    end
  else if String.eqb entity "role" then
    match unmarshalYamlFile (Unmarshal_Role yaml) fp with
    | inl err => Returns (inl err)
    | inr r => Returns (inr (alter (addRole (set_role name path r)) accountid accounts))
    end
  else if String.eqb entity "policy" then
    match unmarshalYamlFile (Unmarshal_Policy yaml) fp with
    | inl err => Returns (inl err)
    | inr p => Returns (inr (alter (addPolicy (set_policy name path p)) accountid accounts))
    end
  else Panics "Unexpected entity".

(** The part of the loop body run for a file that matched. *)
Definition load_matched (fp : string) (result : gmap string string)
           (accounts : accounts_map) : outcome (error + accounts_map) :=
  let accountid := at_key result "account" in
  let entity := at_key result "entity" in
  let path := at_key result "path" in
  let name := at_key result "name" in
  obind (match accounts !! accountid with
         | Some _ => Returns accounts
         | None => obind (NewAccountData accountid) (fun ad =>
                   Returns (<[accountid := ad]> accounts))
         end)
        (load_entity fp accountid entity path name).

(** [for _, fp := range allFiles { ... }], with the lines it logs. *)
Fixpoint load_loop (allFiles : list string) (accounts : accounts_map)
         (log : list string) : list string * outcome (error + accounts_map) :=
  match allFiles with
  | [] => (log, Returns (inr accounts))
  | fp :: rest =>
      match namedMatch pathRegex fp with
      | Some result =>
          let log' := (log ++ ["Loading " +:+ fp])%list in
          match load_matched fp result accounts with
          | Returns (inr accounts') => load_loop rest accounts' log'
          | Returns (inl err) => (log', Returns (inl err))
          | Panics msg => (log', Panics msg)
          end
      | None => load_loop rest accounts (log ++ ["Skipping " +:+ fp])%list
      end
  end.

(** [func (a *YamlLoadDumper) Load() ([]AccountData, error)], with the log.
    The nil slice is the empty list.  Go ranges over the map [accounts] in
    an order it does not fix; the model lists the accounts in the order
    of [map_to_list]. *)
Definition Load : list string * outcome (list AccountData * option error) :=
  let log := ["Loading YAML IAM data from " +:+ Dir] in
  match walk os Dir with
  | inl err => (log, Returns ([], Some err))
  | inr allFiles =>
      match load_loop allFiles ∅ log with
      | (log', Returns (inr accounts)) =>
          (log', Returns (map snd (map_to_list accounts), None))
      | (log', Returns (inl err)) => (log', Returns ([], Some err))
      | (log', Panics msg) => (log', Panics msg)
      end
  end.
End Loader.

(** ** File-tree dumper *)

Section Dumper.
Variable os : OS.
Variable yaml : YamlLib.
Variable Dir : string.

(** [os.RemoveAll(path)]: the files at or below [path] go. *)
Definition RemoveAll (path : string) (fs : files) : files * option error :=
  match fails os fs (CallRemoveAll path) with
  | Some err => (fs, Some err)
  | None => (filter (fun kv => within os path kv.1 = false) fs, None)
  end.

(** [os.MkdirAll(path, 0777)]: no regular file appears or goes. *)
Definition MkdirAll (path : string) (fs : files) : files * option error :=
  (fs, fails os fs (CallMkdirAll path)).

(** [ioutil.WriteFile(path, b, 0666)] *)
Definition WriteFile (path b : string) (fs : files) : files * option error :=
  match fails os fs (CallWriteFile path) with
  | Some err => (fs, Some err)
  | None => (<[path := b]> fs, None)
  end.

(** [func writeYamlFile(path string, thing interface{}) error] *)
Definition writeYamlFile (path : string) (thing : AwsResource)
           (fs : files) : files * option error :=
  match Marshal yaml thing with
  | inl err => (fs, Some err)
  | inr b =>
      match MkdirAll (DirOf os path) fs with
      | (fs1, Some err) => (fs1, Some err)
      | (fs1, None) => WriteFile path b fs1
      end
  end.

(** [writeUser], [writePolicy], [writeGroup] and [writeRole]: the same
    body at the four resource types. *)
Definition writeResource (a : Account) (r : AwsResource)
           (fs : files) : files * option error :=
  writeYamlFile (Join os Dir (renderPath a r)) r fs.

(** The four loops of [Dump] one after the other: stop at the first
    error. *)
Fixpoint write_all (a : Account) (rs : list AwsResource)
         (fs : files) : files * option error :=
  match rs with
  | [] => (fs, None)
  | r :: rs' =>
      match writeResource a r fs with
      | (fs1, Some err) => (fs1, Some err)
      | (fs1, None) => write_all a rs' fs1
      end
  end.

(** [func (f *YamlLoadDumper) Dump(accountData *AccountData, canDelete bool) error];
    the line it logs first is left out. *)
Definition Dump (accountData : AccountData) (canDelete : bool)
           (fs : files) : files * option error :=
  let destDir := Join os Dir (Account_String (ad_Account accountData)) in
  match (if canDelete then RemoveAll destDir fs else (fs, None)) with
  | (fs1, Some err) => (fs1, Some err)
  | (fs1, None) => write_all (ad_Account accountData) (resources accountData) fs1
  end.
End Dumper.

(** ** What a pattern admits

    [matches text r s s' cs cs']: on the text [text], [r] can take the
    remaining input from [s] to [s'], turning the captures [cs] into [cs'].
    This is the set of all ways [r] can match, without the order in which
    [run] tries them. *)
Fixpoint matches (text : string) (r : regex) (s s' : string) (cs cs' : caps) : Prop :=
  match r with
  | Bol => String.length s = String.length text /\ s' = s /\ cs' = cs
  | Eol => s = "" /\ s' = "" /\ cs' = cs
  | Lit c => s = String c s' /\ cs' = cs
  | Cat r1 r2 =>
      exists s1 cs1, matches text r1 s s1 cs cs1 /\ matches text r2 s1 s' cs1 cs'
  | Alt r1 r2 => matches text r1 s s' cs cs' \/ matches text r2 s s' cs cs'
  | Opt r1 => matches text r1 s s' cs cs' \/ (s' = s /\ cs' = cs)
  | Star p => exists u, s = u +:+ s' /\ str_all p u = true /\ cs' = cs
  | Plus p =>
      exists u, s = u +:+ s' /\ nonempty u = true /\ str_all p u = true /\ cs' = cs
  | Capture i _ r1 =>
      exists cs1, matches text r1 s s' cs cs1 /\ cs' = (i, consumed s s') :: cs1
  end.

(** ** The grammar of account strings

    Word characters or hyphens, a hyphen and digits; or digits alone. *)
Definition account_grammar (s : string) : Prop :=
  (nonempty s = true /\ str_all is_digit s = true) \/
  (exists al d,
      s = al +:+ "-" +:+ d /\
      nonempty al = true /\ str_all is_word_or_hyphen al = true /\
      nonempty d = true /\ str_all is_digit d = true).

(** What a successful parse says about its input. *)
Definition account_shape (s : string) (a : Account) : Prop :=
  (Alias a = "" /\ Id a = s /\ nonempty s = true /\ str_all is_digit s = true) \/
  (s = Alias a +:+ "-" +:+ Id a /\
   nonempty (Alias a) = true /\ str_all is_word_or_hyphen (Alias a) = true /\
   nonempty (Id a) = true /\ str_all is_digit (Id a) = true).

(** ** The shape of file paths *)

Definition is_kind (e : string) : Prop :=
  e = "user" \/ e = "group" \/ e = "policy" \/ e = "role".

Definition not_slash (c : ascii) : bool := negb (Ascii.eqb c "/").

(** A character a resource name can hold without confusing the pattern:
    neither a slash nor a newline. *)
Definition is_name_char (c : ascii) : bool := is_dot c && not_slash c.

Fixpoint str_last (s : string) : option ascii :=
  match s with
  | EmptyString => None
  | String c EmptyString => Some c
  | String _ s' => str_last s'
  end.

Definition ends_with_slash (p : string) : bool :=
  match str_last p with
  | Some c => Ascii.eqb c "/"
  | None => false
  end.

(** No segment of the hierarchical path starts with one of the four type
    keys. *)
Definition kind_free (p : string) : bool :=
  negb (occurs "/user" p) && negb (occurs "/group" p) &&
  negb (occurs "/policy" p) && negb (occurs "/role" p).

(** The four components a path of the tree is read as. *)
Definition parses_to (fp account entity path name : string) : Prop :=
  exists result,
    namedMatch pathRegex fp = Some result /\
    at_key result "account" = account /\
    at_key result "entity" = entity /\
    at_key result "path" = path /\
    at_key result "name" = name.

(** The paths the pattern takes:
    [<account>/<typeKey><path><name>.yaml], where the account and the name
    are non-empty, the path ends in a slash, and none of them holds a
    newline. *)
Definition path_form (fp a e p n : string) : Prop :=
  fp = a +:+ "/" +:+ e +:+ p +:+ n +:+ ".yaml" /\
  nonempty a = true /\ str_all is_dot a = true /\
  is_kind e /\
  ends_with_slash p = true /\ str_all is_dot p = true /\
  nonempty n = true /\ str_all is_dot n = true.

(** The paths of the file format as the specification words it: the
    account is a canonical account string and the hierarchical path begins
    and ends with a slash. *)
Definition documented_form (fp : string) : Prop :=
  exists a e p n,
    fp = a +:+ "/" +:+ e +:+ p +:+ n +:+ ".yaml" /\
    account_grammar a /\ is_kind e /\
    HasPrefix p "/" = true /\ ends_with_slash p = true.

(** ** Reading a tree file by file *)

(** The same system with another listing of the tree. *)
Definition with_listing (os : OS) (listing : list string) : OS :=
  {| Join := Join os; DirOf := DirOf os; within := within os; fails := fails os;
     walk := fun _ => inr listing; ReadFile := ReadFile os |}.

(** The error, if any, of reading the file at [fp] and decoding it into the
    struct its entity kind names. *)
Definition load_error (os : OS) (yaml : YamlLib) (Dir fp : string) : option error :=
  match namedMatch pathRegex fp with
  | None => None
  | Some result =>
      let entity := at_key result "entity" in
      let err {T} (x : error + T) : option error :=
        match x with inl e => Some e | inr _ => None end in
      if String.eqb entity "user" then
        err (unmarshalYamlFile os Dir (Unmarshal_User yaml) fp)
      else if String.eqb entity "group" then
        err (unmarshalYamlFile os Dir (Unmarshal_Group yaml) fp)
      else if String.eqb entity "role" then
        err (unmarshalYamlFile os Dir (Unmarshal_Role yaml) fp)
      else if String.eqb entity "policy" then
        err (unmarshalYamlFile os Dir (Unmarshal_Policy yaml) fp)
      else None
  end.

(** The account component of a matched path is one [NewAccountFromString]
    takes. *)
Definition account_accepted (fp : string) : Prop :=
  forall result, namedMatch pathRegex fp = Some result ->
                 account_grammar (at_key result "account").

(** A resource whose identity is the one read off the path of some file of
    the listing. *)
Definition identity_from_path (listing : list string) (r : AwsResource) : Prop :=
  exists fp result,
    In fp listing /\ namedMatch pathRegex fp = Some result /\
    Type_ r = at_key result "entity" /\
    NameString r = at_key result "name" /\
    PathString r = at_key result "path".

(** Every resource held in the map of the loop has its identity from the
    path of a listed file. *)
Definition all_from_paths (listing : list string)
           (accounts : gmap string AccountData) : Prop :=
  forall k ad r, accounts !! k = Some ad -> In r (resources ad) ->
                 identity_from_path listing r.

(** What a turn of the loop of [Load] adds for a file that matches, reads
    and decodes: the account string and the resource, its name and path set
    from the path. *)
Definition contribution (os : OS) (yaml : YamlLib) (Dir fp : string)
  : option (string * AwsResource) :=
  match namedMatch pathRegex fp with
  | None => None
  | Some result =>
      let accountid := at_key result "account" in
      let entity := at_key result "entity" in
      let path := at_key result "path" in
      let name := at_key result "name" in
      if String.eqb entity "user" then
        match unmarshalYamlFile os Dir (Unmarshal_User yaml) fp with
        | inl _ => None
        | inr u => Some (accountid, RUser (set_user name path u))
        end
      else if String.eqb entity "group" then
        match unmarshalYamlFile os Dir (Unmarshal_Group yaml) fp with
        | inl _ => None
        | inr g => Some (accountid, RGroup (set_group name path g))
        end
      else if String.eqb entity "role" then
        match unmarshalYamlFile os Dir (Unmarshal_Role yaml) fp with
        | inl _ => None
        | inr r => Some (accountid, RRole (set_role name path r))
        end
      else if String.eqb entity "policy" then
        match unmarshalYamlFile os Dir (Unmarshal_Policy yaml) fp with
        | inl _ => None
        | inr p => Some (accountid, RPolicy (set_policy name path p))
        end
      else None
  end.

(** The resources the files of a listing add to one account, in the order
    of the listing. *)
Definition contributions (os : OS) (yaml : YamlLib) (Dir account : string)
           (listing : list string) : list AwsResource :=
  flat_map (fun fp =>
              match contribution os yaml Dir fp with
              | Some (k, r) => if String.eqb k account then [r] else []
              | None => []
              end) listing.

Definition users_of (rs : list AwsResource) : list User :=
  flat_map (fun r => match r with RUser u => [u] | _ => [] end) rs.

Definition groups_of (rs : list AwsResource) : list Group :=
  flat_map (fun r => match r with RGroup g => [g] | _ => [] end) rs.

Definition roles_of (rs : list AwsResource) : list Role :=
  flat_map (fun r => match r with RRole x => [x] | _ => [] end) rs.

Definition policies_of (rs : list AwsResource) : list Policy :=
  flat_map (fun r => match r with RPolicy p => [p] | _ => [] end) rs.

(** [addUser], [addGroup], [addRole] or [addPolicy], by the kind of the
    resource. *)
Definition add_resource (r : AwsResource) : AccountData -> AccountData :=
  match r with
  | RUser u => addUser u
  | RGroup g => addGroup g
  | RRole x => addRole x
  | RPolicy p => addPolicy p
  end.

(** The line the loop of [Load] logs for a file. *)
Definition log_line (fp : string) : string :=
  match namedMatch pathRegex fp with
  | Some _ => "Loading " +:+ fp
  | None => "Skipping " +:+ fp
  end.

(** What [Load] keeps true of the map [accounts] once it has gone through
    the files [done]: an account is keyed by the string it was parsed from,
    holds the resources those files add to it, kind by kind in their order,
    and is there as soon as one file of it was met. *)
Definition collected (os : OS) (yaml : YamlLib) (Dir : string)
           (done : list string) (accounts : gmap string AccountData) : Prop :=
  (forall k ad, accounts !! k = Some ad ->
     NewAccountFromString k = Returns (ad_Account ad) /\
     Users ad = users_of (contributions os yaml Dir k done) /\
     Groups ad = groups_of (contributions os yaml Dir k done) /\
     Roles ad = roles_of (contributions os yaml Dir k done) /\
     Policies ad = policies_of (contributions os yaml Dir k done) /\
     exists fp result, In fp done /\ namedMatch pathRegex fp = Some result /\
                       at_key result "account" = k) /\
  (forall k, accounts !! k = None ->
     forall fp result, In fp done -> namedMatch pathRegex fp = Some result ->
                       at_key result "account" <> k).

(** The first element a lookup is to return: the one found comes first
    among those of that identity, and nothing is found only when there is
    none. *)
Definition finds_first {T : Type} (same : T -> Prop) (l : list T) (o : option T) : Prop :=
  match o with
  | Some x =>
      exists before after,
        l = (before ++ x :: after)%list /\ same x /\ forall v, In v before -> ~ same v
  | None => forall v, In v l -> ~ same v
  end.

(** How [Load] ends, from how its loop ends. *)
Definition finish (o : outcome (error + gmap string AccountData))
  : outcome (list AccountData * option error) :=
  match o with
  | Returns (inr accounts) => Returns (map snd (map_to_list accounts), None)
  | Returns (inl err) => Returns ([], Some err)
  | Panics msg => Panics msg
  end.

(** The key of a field tagged [omitempty], when the field is written. *)
Definition when_nonempty {T : Type} (key : string) (l : list T) : list string :=
  match l with [] => [] | _ => [key] end.

(** The decoder of the kind of [r] turns [data] into the fields of [r]:
    with the name and the path of [r] set, the decoded resource is [r]. *)
Definition decodes_back (yaml : YamlLib) (r : AwsResource) (data : string) : Prop :=
  match r with
  | RUser u =>
      exists u0, Unmarshal_User yaml data = inr u0 /\
                 set_user (u_Name u) (u_Path u) u0 = u
  | RGroup g =>
      exists g0, Unmarshal_Group yaml data = inr g0 /\
                 set_group (g_Name g) (g_Path g) g0 = g
  | RRole x =>
      exists x0, Unmarshal_Role yaml data = inr x0 /\
                 set_role (r_Name x) (r_Path x) x0 = x
  | RPolicy p =>
      exists p0, Unmarshal_Policy yaml data = inr p0 /\
                 set_policy (p_Name p) (p_Path p) p0 = p
  end.

(** The names and paths [renderPath] and [pathRegex] agree on. *)
Definition path_safe (r : AwsResource) : Prop :=
  ends_with_slash (PathString r) = true /\
  str_all is_dot (PathString r) = true /\
  kind_free (PathString r) = true /\
  nonempty (NameString r) = true /\
  str_all is_name_char (NameString r) = true.

Definition account_safe (a : Account) : Prop :=
  nonempty (Account_String a) = true /\
  str_all is_dot (Account_String a) = true.


(** What the loops of [Dump] leave at the path [p] when they go through:
    the document of the last resource written there, if any. *)
Fixpoint last_write (os : OS) (yaml : YamlLib) (Dir : string) (a : Account)
         (rs : list AwsResource) (p : string) (before : option string)
  : option string :=
  match rs with
  | [] => before
  | r :: rs' =>
      last_write os yaml Dir a rs' p
        (if String.eqb (Join os Dir (renderPath a r)) p
         then match Marshal yaml r with inr c => Some c | inl _ => before end
         else before)
  end.

(** ** A small world to run the loader and the dumper in *)

Definition slash_join (d p : string) : string := d +:+ "/" +:+ p.

Definition below (d p : string) : bool :=
  String.eqb d p || String.prefix (d +:+ "/") p.

Fixpoint dir_of (p : string) : string :=
  match p with
  | EmptyString => EmptyString
  | String c p' => if occurs "/" p' then String c (dir_of p') else EmptyString
  end.

Definition demo_os (listing : list string) (contents : string -> error + string) : OS :=
  {| Join := slash_join; DirOf := dir_of; within := below;
     fails := fun _ _ => None;
     walk := fun _ => inr listing;
     ReadFile := contents |}.

(** A stand-in for the YAML library: a document is written as the list of
    its top-level keys, and read as one attached policy name. *)
Definition demo_yaml : YamlLib :=
  {| emit := fun v =>
       match v with
       | VMap entries => inr (String.concat "," (map fst entries))
       | _ => inl "not a mapping"
       end;
     Unmarshal_User := fun data =>
       inr {| u_Name := ""; u_Path := ""; u_Groups := [];
              u_InlinePolicies := []; u_Policies := [data] |};
     Unmarshal_Group := fun data =>
       inr {| g_Name := ""; g_Path := ""; g_InlinePolicies := [];
              g_Policies := [data] |};
     Unmarshal_Role := fun data =>
       inr {| r_Name := ""; r_Path := ""; r_AssumeRolePolicyDocument := [];
              r_InlinePolicies := []; r_Policies := [data] |};
     Unmarshal_Policy := fun data =>
       inr {| p_Name := ""; p_Path := ""; p_Policy := [("Version", VString data)] |} |}.

Definition readable (_ : string) : error + string := inr "ReadOnly".

Definition unreadable (_ : string) : error + string := inl "permission denied".

Definition deploy_role : AwsResource :=
  RRole {| r_Name := "deploy"; r_Path := "/svc/";
           r_AssumeRolePolicyDocument := [("Version", VString "2012-10-17")];
           r_InlinePolicies := []; r_Policies := [] |}.

Definition account_999 : AccountData :=
  {| ad_Account := {| Id := "999"; Alias := "" |};
     Users := []; Groups := []; Policies := [];
     Roles := [{| r_Name := "deploy"; r_Path := "/svc/";
                  r_AssumeRolePolicyDocument := [("Version", VString "2012-10-17")];
                  r_InlinePolicies := []; r_Policies := [] |}] |}.

Definition stray_tree : files :=
  <["root/999/stray.txt" := "x"]> (<["root/other/keep.txt" := "y"]> ∅).

(** A YAML library that reads the document [demo_yaml] writes for
    [deploy_role] back into its fields. *)
Definition deploy_yaml : YamlLib :=
  {| emit := emit demo_yaml;
     Unmarshal_User := Unmarshal_User demo_yaml;
     Unmarshal_Group := Unmarshal_Group demo_yaml;
     Unmarshal_Role := fun data =>
       if String.eqb data "AssumeRolePolicyDocument"
       then inr {| r_Name := ""; r_Path := "";
                   r_AssumeRolePolicyDocument := [("Version", VString "2012-10-17")];
                   r_InlinePolicies := []; r_Policies := [] |}
       else inl "cannot decode";
     Unmarshal_Policy := Unmarshal_Policy demo_yaml |}.

(** Reading the files of a tree. *)
Definition reading (fs : files) (p : string) : error + string :=
  match fs !! p with
  | Some c => inr c
  | None => inl "no such file"
  end.

(** The tree [Dump] leaves of [account_999] over [stray_tree]. *)
Definition dumped_999 : files :=
  (Dump (demo_os [] readable) deploy_yaml "root" account_999 true stray_tree).1.


(** * Properties *)

(** ** Byte strings *)

Lemma app_nil_r (s : string) : s +:+ "" = s.
Proof. induction s; simpl; congruence. Qed.

Lemma app_assoc (a b c : string) : (a +:+ b) +:+ c = a +:+ (b +:+ c).
Proof. induction a; simpl; congruence. Qed.

Lemma length_app (a b : string) :
  String.length (a +:+ b) = String.length a + String.length b.
Proof. induction a; simpl; congruence. Qed.

Lemma str_take_app (a b : string) : str_take (String.length a) (a +:+ b) = a.
Proof. induction a; simpl; congruence. Qed.

Lemma str_drop_app (a b : string) : str_drop (String.length a) (a +:+ b) = b.
Proof. induction a; simpl; congruence. Qed.

Lemma consumed_app (u s' : string) : consumed (u +:+ s') s' = u.
Proof.
  unfold consumed. rewrite length_app.
  replace (String.length u + String.length s' - String.length s')
    with (String.length u) by lia.
  apply str_take_app.
Qed.

Lemma consumed_all (s : string) : consumed s "" = s.
Proof. rewrite <- (app_nil_r s) at 1. apply consumed_app. Qed.

Lemma str_all_app (p : ascii -> bool) (a b : string) :
  str_all p (a +:+ b) = str_all p a && str_all p b.
Proof. induction a; simpl; [reflexivity|]. rewrite IHa. apply andb_assoc. Qed.

Lemma prefix_app (a b : string) : String.prefix a (a +:+ b) = true.
Proof.
  induction a; simpl; [destruct b; reflexivity|].
  destruct (ascii_dec a a); [assumption | contradiction].
Qed.

Lemma prefix_split (a s : string) :
  String.prefix a s = true -> exists b, s = a +:+ b.
Proof.
  revert s. induction a as [|c a IH]; intros s H.
  - exists s. reflexivity.
  - destruct s as [|c' s]; simpl in H; [discriminate|].
    destruct (ascii_dec c c'); [|discriminate]. subst c'.
    destruct (IH _ H) as [b ->]. exists b. reflexivity.
Qed.

Lemma occurs_prefix (pat s : string) :
  String.prefix pat s = true -> occurs pat s = true.
Proof. intros H. destruct s; cbn [occurs]; rewrite H; reflexivity. Qed.

Lemma occurs_app (pat u v : string) : occurs pat (u +:+ pat +:+ v) = true.
Proof.
  induction u as [|c u IH].
  - change (occurs pat (pat +:+ v) = true). apply occurs_prefix, prefix_app.
  - simpl. rewrite IH. apply orb_true_r.
Qed.

(** ** The search of [regexp] against what the pattern admits *)

Lemma star_sound {R} (p : ascii -> bool) (s : string) (k : string -> option R) r :
  star p s k = Some r ->
  exists u s', s = u +:+ s' /\ str_all p u = true /\ k s' = Some r.
Proof.
  induction s as [|c s IH]; simpl; intros H.
  - exists "", "". auto.
  - destruct (p c) eqn:Hc.
    + destruct (star p s k) eqn:Hs.
      * injection H as <-. destruct (IH eq_refl) as (u & s' & -> & Hu & Hk).
        exists (String c u), s'. simpl. rewrite Hc, Hu. auto.
      * exists "", (String c s). auto.
    + exists "", (String c s). auto.
Qed.

Lemma star_complete {R} (p : ascii -> bool) (u s' : string) (k : string -> option R) r :
  str_all p u = true -> k s' = Some r ->
  exists r', star p (u +:+ s') k = Some r'.
Proof.
  induction u as [|c u IH]; simpl; intros Hu Hk.
  - destruct s' as [|c s']; simpl; [eauto|].
    destruct (p c); [destruct (star p s' k)|]; eauto.
  - apply andb_prop in Hu as [Hc Hu]. rewrite Hc.
    destruct (IH Hu Hk) as [r' ->]. eauto.
Qed.

(** A success further to the right wins: the repetition is greedy. *)
Lemma star_greedy {R} (p : ascii -> bool) (u s' : string) (k : string -> option R) r :
  str_all p u = true -> star p s' k = Some r -> star p (u +:+ s') k = Some r.
Proof.
  induction u as [|c u IH]; simpl; intros Hu Hk; [assumption|].
  apply andb_prop in Hu as [Hc Hu]. rewrite Hc, (IH Hu Hk). reflexivity.
Qed.

Lemma star_none {R} (p : ascii -> bool) (s : string) (k : string -> option R) :
  (forall u s', s = u +:+ s' -> k s' = None) -> star p s k = None.
Proof.
  induction s as [|c s IH]; simpl; intros H.
  - apply (H "" ""). reflexivity.
  - assert (Hs : star p s k = None).
    { apply IH. intros u s' ->. apply (H (String c u)). reflexivity. }
    rewrite Hs. destruct (p c); apply (H ""); reflexivity.
Qed.

Lemma matches_suffix text r : forall s s' cs cs',
  matches text r s s' cs cs' -> exists u, s = u +:+ s'.
Proof.
  induction r; simpl; intros s s' cs cs' H.
  - destruct H as (_ & -> & _). exists "". reflexivity.
  - destruct H as (-> & -> & _). exists "". reflexivity.
  - destruct H as (-> & _). exists (String c ""). reflexivity.
  - destruct H as (s1 & cs1 & H1 & H2).
    destruct (IHr1 _ _ _ _ H1) as [u ->], (IHr2 _ _ _ _ H2) as [v ->].
    exists (u +:+ v). symmetry. apply app_assoc.
  - destruct H as [H|H]; eauto.
  - destruct H as [H|[-> _]]; eauto. exists "". reflexivity.
  - destruct H as (u & -> & _). eauto.
  - destruct H as (u & -> & _). eauto.
  - destruct H as (cs1 & H & _). eauto.
Qed.

Lemma run_sound text r : forall s cs k x,
  run text r s cs k = Some x ->
  exists s' cs', matches text r s s' cs cs' /\ k s' cs' = Some x.
Proof.
  induction r; simpl; intros s cs k x H.
  - destruct (Nat.eqb_spec (String.length s) (String.length text)); [|discriminate].
    exists s, cs. auto.
  - destruct s; [|discriminate]. exists "", cs. auto.
  - destruct s as [|c' s]; [discriminate|].
    destruct (Ascii.eqb_spec c c'); [|discriminate]. subst c'.
    exists s, cs. auto.
  - apply IHr1 in H as (s1 & cs1 & H1 & H).
    apply IHr2 in H as (s2 & cs2 & H2 & H).
    exists s2, cs2. eauto.
  - destruct (run text r1 s cs k) eqn:E.
    + injection H as <-. apply IHr1 in E as (s' & cs' & ? & ?). eauto 6.
    + apply IHr2 in H as (s' & cs' & ? & ?). eauto 6.
  - destruct (run text r s cs k) eqn:E.
    + injection H as <-. apply IHr in E as (s' & cs' & ? & ?). eauto 6.
    + exists s, cs. auto.
  - apply star_sound in H as (u & s' & -> & Hu & H). exists s', cs. eauto 6.
  - destruct s as [|c s]; [discriminate|]. destruct (p c) eqn:Hc; [|discriminate].
    apply star_sound in H as (u & s' & -> & Hu & H). exists s', cs.
    split; [|assumption]. exists (String c u). simpl. rewrite Hc, Hu. auto.
  - apply IHr in H as (s' & cs' & H1 & H). eauto 6.
Qed.

Lemma run_complete text r : forall s s' cs cs' k x,
  matches text r s s' cs cs' -> k s' cs' = Some x ->
  exists x', run text r s cs k = Some x'.
Proof.
  induction r; simpl; intros s s' cs cs' k x H Hk.
  - destruct H as (Hl & -> & ->). rewrite Hl, Nat.eqb_refl. eauto.
  - destruct H as (-> & -> & ->). eauto.
  - destruct H as (-> & ->). rewrite Ascii.eqb_refl. eauto.
  - destruct H as (s1 & cs1 & H1 & H2).
    destruct (IHr2 _ _ _ _ _ _ H2 Hk) as [x2 Hx2].
    exact (IHr1 _ _ _ _ _ _ H1 Hx2).
  - destruct (run text r1 s cs k) eqn:E; [eauto|].
    destruct H as [H|H]; [|eauto].
    destruct (IHr1 _ _ _ _ _ _ H Hk) as [x' Hx']. congruence.
  - destruct (run text r s cs k) eqn:E; [eauto|].
    destruct H as [H|[-> ->]]; [|eauto].
    destruct (IHr _ _ _ _ _ _ H Hk) as [x' Hx']. congruence.
  - destruct H as (u & -> & Hu & ->).
    exact (star_complete p u s' (fun s'' => k s'' cs) x Hu Hk).
  - destruct H as (u & -> & Hn & Hu & ->).
    destruct u as [|c u]; [discriminate|]. simpl in *.
    apply andb_prop in Hu as [Hc Hu]. rewrite Hc.
    exact (star_complete p u s' (fun s'' => k s'' cs) x Hu Hk).
  - destruct H as (cs1 & H & ->).
    exact (IHr _ _ _ _ (fun s'' cs'' => k s'' ((i, consumed s s'') :: cs'')) _ H Hk).
Qed.

(** A pattern that starts with [^] is only tried at the start of the
    text. *)
Lemma run_bol_off text r s cs k :
  String.length s <> String.length text ->
  run text (Capture 0 "" (Cat Bol r)) s cs k = None.
Proof.
  intros Hl. cbn [run].
  destruct (Nat.eqb_spec (String.length s) (String.length text));
    [contradiction|reflexivity].
Qed.

Lemma search_anchored text r (s : string) :
  String.length s < String.length text -> search text (Cat Bol r) s = None.
Proof.
  induction s as [|c s IH]; intros Hl; cbn [search];
    rewrite run_bol_off by lia; [reflexivity|].
  apply IH. simpl in Hl. lia.
Qed.

Lemma search_bol text r :
  search text (Cat Bol r) text
  = run text r text [] (fun s' cs' => Some ((0, consumed text s') :: cs')).
Proof.
  assert (E : run text (Capture 0 "" (Cat Bol r)) text []
                (fun _ cs => Some cs)
              = run text r text []
                  (fun s' cs' => Some ((0, consumed text s') :: cs'))).
  { cbn [run]. rewrite Nat.eqb_refl. reflexivity. }
  destruct text as [|c t]; cbn [search]; rewrite E;
    destruct (run _ r _ [] _); try reflexivity.
  apply search_anchored. simpl. lia.
Qed.

(** ** Account identity codec *)

Lemma NewAccountFromString_search (s : string) :
  NewAccountFromString s =
  match search s accountReg s with
  | Some cs => Returns {| Id := cap_get 3 cs; Alias := cap_get 2 cs |}
  | None => Panics (cant_create s)
  end.
Proof.
  unfold NewAccountFromString, FindAllStringSubmatch, FindStringSubmatch.
  destruct (search s accountReg s); reflexivity.
Qed.

Lemma account_parse_shape (s : string) (a : Account) :
  NewAccountFromString s = Returns a -> account_shape s a.
Proof.
  rewrite NewAccountFromString_search. unfold accountReg. rewrite search_bol.
  destruct (run s _ s [] _) as [cs|] eqn:E; [|discriminate].
  intros [= <-]. apply run_sound in E as (s' & cs' & M & [= <-]).
  simpl in M.
  destruct M as (s1 & cs1 & M1 & s2 & cs2 & (cs3 & (u & -> & Hn & Hu & ->) & ->)
                 & -> & -> & ->).
  rewrite app_nil_r in *.
  destruct M1 as [(cs4 & (s0 & cs0 & (cs5 & (v & -> & Hvn & Hv & ->) & ->)
                          & [= ->] & ->) & ->) | [<- ->]].
  - right. simpl. rewrite consumed_all.
    change (String "-" u) with ("-" +:+ u). rewrite consumed_app. auto.
  - left. simpl. rewrite consumed_all. auto.
Qed.

Lemma account_parse_total (s : string) :
  account_grammar s -> exists a, NewAccountFromString s = Returns a.
Proof.
  intros G. rewrite NewAccountFromString_search. unfold accountReg.
  rewrite search_bol.
  match goal with |- context [run s ?r s [] ?k] =>
    assert (M : exists cs, matches s r s "" [] cs) end.
  { destruct G as [[Hn Hd] | (al & d & -> & Han & Ha & Hdn & Hd)]; simpl.
    - exists [(3, consumed s "")], s, []. split; [right; auto|].
      exists "", [(3, consumed s "")]. split; [|auto].
      exists []. split; [|reflexivity]. exists s. rewrite app_nil_r. auto.
    - eexists. exists d. eexists. split.
      + left. eexists. split; [|reflexivity].
        exists ("-" +:+ d). eexists. split; [|split; reflexivity].
        eexists. split; [|reflexivity]. exists al. auto.
      + exists "". eexists. split; [|split; [|split]; reflexivity].
        eexists. split; [|reflexivity]. exists d. rewrite app_nil_r. auto. }
  destruct M as [cs M].
  destruct (run_complete _ _ _ _ _ _
              (fun s' cs' => Some ((0, consumed s s') :: cs')) _ M eq_refl)
    as [x ->].
  eauto.
Qed.






(** C7 (as amended).  For every input string that matches neither the
    alias-accountId pattern nor the bare accountId pattern,
    [NewAccountFromString] panics with the message
    ["Can't create account name from "] followed by the input; it has no
    error result. *)
Theorem malformed_account_panics (s : string) :
  ~ account_grammar s ->
  NewAccountFromString s = Panics ("Can't create account name from " +:+ s).
Proof.
  intros G. destruct (NewAccountFromString s) as [a|msg] eqn:E.
  - exfalso. apply G. apply account_parse_shape in E.
    destruct a as [i al]. unfold account_shape in E. simpl in E.
    destruct E as [(-> & -> & ? & ?) | (-> & ? & ? & ? & ?)].
    + left. auto.
    + right. exists al, i. auto.
  - rewrite NewAccountFromString_search in E. unfold cant_create in E.
    destruct (search s accountReg s); congruence.
Qed.

Lemma abc_not_account : ~ account_grammar "abc".
Proof.
  intros [[_ H] | (al & d & E & _ & _ & Hn & Hd)]; [discriminate H|].
  destruct al as [|c1 [|c2 [|c3 [|c4 al]]]]; simpl in E; discriminate E.
Qed.

Lemma malformed_account_panics_witness :
  ~ account_grammar "abc" /\
  NewAccountFromString "abc" = Panics "Can't create account name from abc".
Proof.
  split; [exact abc_not_account|].
  apply (malformed_account_panics "abc"). exact abc_not_account.
Defined.

(** C7 as stated fails: on ["abc"], which matches neither pattern, the call
    does not return to its caller. *)
Lemma malformed_account_counterexample :
  ~ account_grammar "abc" /\ ~ returned (NewAccountFromString "abc").
Proof.
  split; [exact abc_not_account|].
  intros [a E]. vm_compute in E. discriminate E.
Qed.

(** C10.  For every account and every policy reference that does not start
    with ["arn:"], turning the name into the account's policy ARN and
    normalising it gives the name back; a reference that starts with
    ["arn:"] is left as it is by [policyArnFromString]. *)
Theorem policy_arn_round_trip (a : Account) (s : string) :
  (HasPrefix s "arn:" = false ->
   normalisePolicyArn a (policyArnFromString a s) = s) /\
  (HasPrefix s "arn:" = true -> policyArnFromString a s = s).
Proof.
  unfold normalisePolicyArn, policyArnFromString, TrimPrefix.
  split; intros ->; [|reflexivity].
  set (pre := "arn:aws:iam::" +:+ Id a +:+ ":policy/").
  replace ("arn:aws:iam::" +:+ Id a +:+ ":policy/" +:+ s) with (pre +:+ s).
  - unfold HasPrefix. rewrite prefix_app. apply str_drop_app.
  - unfold pre. rewrite !app_assoc. reflexivity.
Qed.

Lemma policy_arn_round_trip_witness :
  normalisePolicyArn {| Id := "999"; Alias := "" |}
    (policyArnFromString {| Id := "999"; Alias := "" |} "ReadOnly") = "ReadOnly" /\
  policyArnFromString {| Id := "999"; Alias := "" |} "arn:aws:iam::aws:policy/X"
  = "arn:aws:iam::aws:policy/X".
Proof.
  split.
  - apply (proj1 (policy_arn_round_trip _ "ReadOnly")). reflexivity.
  - apply (proj2 (policy_arn_round_trip _ "arn:aws:iam::aws:policy/X")). reflexivity.
Defined.

(** ** Path codec *)

#[local] Arguments consumed : simpl never.

Lemma star_pick {R} (p : ascii -> bool) (u s' : string) (k : string -> option R) r :
  str_all p u = true -> k s' = Some r ->
  (forall v s'', s' = v +:+ s'' -> nonempty v = true -> k s'' = None) ->
  star p (u +:+ s') k = Some r.
Proof.
  intros Hu Hk Hl. apply star_greedy; [assumption|].
  destruct s' as [|c s1]; simpl; [assumption|].
  rewrite (star_none p s1 k).
  - destruct (p c); assumption.
  - intros v s'' ->. apply (Hl (String c v)); reflexivity.
Qed.

Lemma yamlEnd_here text cs k : run text yamlEnd ".yaml" cs k = k "" cs.
Proof. reflexivity. Qed.

Lemma yamlEnd_matches text s s' cs cs' :
  matches text yamlEnd s s' cs cs' -> s = ".yaml" /\ s' = "" /\ cs' = cs.
Proof.
  simpl. intros (s1 & cs1 & M & -> & -> & ->).
  destruct M as (? & ? & [-> ->] & ? & ? & [-> ->] & ? & ? & [-> ->] & ? & ? & [-> ->] & [-> ->]).
  auto.
Qed.

Lemma name_step text N cs k r :
  nonempty N = true -> str_all is_dot N = true ->
  k "" ((5, N) :: cs) = Some r ->
  run text nameRest (N +:+ ".yaml") cs k = Some r.
Proof.
  intros Hn Hd Hk. destruct N as [|c N]; [discriminate|].
  simpl in Hd. apply andb_prop in Hd as [Hc Hd].
  unfold nameRest. cbn [run String.append]. rewrite Hc.
  apply star_pick; [assumption| |].
  - rewrite yamlEnd_here.
    change (String c (N +:+ ".yaml")) with (String c N +:+ ".yaml").
    rewrite consumed_app. assumption.
  - intros v s'' E Hv.
    match goal with |- ?g = None => destruct g eqn:R end; [|reflexivity].
    apply run_sound in R as (s3 & cs3 & M & _).
    apply yamlEnd_matches in M as (-> & _).
    apply (f_equal String.length) in E. rewrite length_app in E.
    destruct v; [discriminate|]. simpl in E. lia.
Qed.

Lemma str_last_app (q : string) (c : ascii) : str_last (q +:+ String c "") = Some c.
Proof.
  induction q as [|d q IH]; [reflexivity|].
  simpl. rewrite IH. destruct (q +:+ String c "") eqn:E; [|reflexivity].
  destruct q; discriminate.
Qed.

Lemma str_last_split (p : string) (c : ascii) :
  str_last p = Some c -> exists q, p = q +:+ String c "".
Proof.
  induction p as [|d p IH]; [discriminate|]. simpl.
  destruct p as [|d' p].
  - intros [= ->]. exists "". reflexivity.
  - intros H. destruct (IH H) as [q ->]. exists (String d q). reflexivity.
Qed.

Lemma ends_with_slash_split (p : string) :
  ends_with_slash p = true <-> exists q, p = q +:+ "/".
Proof.
  unfold ends_with_slash. split.
  - destruct (str_last p) as [c|] eqn:E; [|discriminate].
    intros H. apply Ascii.eqb_eq in H as ->. apply str_last_split, E.
  - intros [q ->]. rewrite str_last_app. reflexivity.
Qed.

Lemma slash_free_split (z w m : string) :
  str_all not_slash z = true -> z <> w +:+ String "/" m.
Proof.
  intros H ->. rewrite str_all_app in H. simpl in H.
  rewrite andb_false_r in H. discriminate.
Qed.

(** A slash in front of a slash-free end lies in what comes before it. *)
Lemma split_before_tail (z : string) : forall u w m,
  str_all not_slash z = true ->
  w +:+ z = u +:+ String "/" m -> exists w2, w = u +:+ String "/" w2.
Proof.
  intros u. induction u as [|c u IH]; intros w m Hz E.
  - destruct w as [|d w]; simpl in E.
    + subst z. discriminate Hz.
    + injection E as -> _. exists w. reflexivity.
  - destruct w as [|d w]; simpl in E.
    + exfalso. apply (slash_free_split z (String c u) m Hz). exact E.
    + injection E as -> E. destruct (IH _ _ Hz E) as [w2 ->]. exists w2. reflexivity.
Qed.

Lemma skip_slash_free (t : string) : forall v p rest,
  str_all not_slash t = true ->
  t +:+ p = v +:+ String "/" rest -> exists v', p = v' +:+ String "/" rest.
Proof.
  induction t as [|c t IH]; intros v p rest Ht E.
  - exists v. exact E.
  - simpl in Ht. apply andb_prop in Ht as [Hc Ht].
    destruct v as [|d v]; simpl in E.
    + injection E as -> _. discriminate Hc.
    + injection E as _ E. exact (IH _ _ _ Ht E).
Qed.

Lemma kind_slash_free (e : string) : is_kind e -> str_all not_slash e = true.
Proof. intros [-> | [-> | [-> | ->]]]; reflexivity. Qed.

Lemma kind_free_occurs (e p : string) :
  is_kind e -> kind_free p = true -> occurs (String "/" e) p = false.
Proof.
  unfold kind_free. intros K H.
  apply andb_prop in H as [H H4]. apply andb_prop in H as [H H3].
  apply andb_prop in H as [H1 H2].
  destruct K as [-> | [-> | [-> | ->]]]; apply negb_true_iff; assumption.
Qed.

(** No later slash of the rendered path starts a second reading. *)
Lemma no_later_split (t p z v e q m : string) :
  is_kind t -> is_kind e -> kind_free p = true -> str_all not_slash z = true ->
  t +:+ p +:+ z = v +:+ String "/" (e +:+ q +:+ String "/" m) -> False.
Proof.
  intros Kt Ke Hp Hz E.
  assert (E' : (t +:+ p) +:+ z = (v +:+ String "/" (e +:+ q)) +:+ String "/" m).
  { rewrite !app_assoc. simpl. rewrite !app_assoc. exact E. }
  apply split_before_tail in E' as [w2 E']; [|assumption].
  rewrite app_assoc in E'. simpl in E'.
  apply skip_slash_free in E' as [v' E']; [|apply kind_slash_free, Kt].
  pose proof (kind_free_occurs e p Ke Hp) as Ho.
  rewrite E' in Ho.
  change (String "/" ((e +:+ q) +:+ String "/" w2))
    with (String "/" (e +:+ q) +:+ String "/" w2) in Ho.
  change (String "/" (e +:+ q)) with (String "/" e +:+ q) in Ho.
  rewrite app_assoc, occurs_app in Ho. discriminate.
Qed.

Lemma name_char_dot (n : string) :
  str_all is_name_char n = true -> str_all is_dot n = true /\ str_all not_slash n = true.
Proof.
  induction n as [|c n IH]; simpl; [auto|].
  unfold is_name_char at 1. intros H.
  apply andb_prop in H as [H Hn]. apply andb_prop in H as [H1 H2].
  destruct (IH Hn) as [-> ->]. rewrite H1, H2. auto.
Qed.

Lemma path_step text q N cs k r :
  str_all is_dot q = true ->
  nonempty N = true -> str_all is_name_char N = true ->
  k "" ((5, N) :: (4, q +:+ "/") :: cs) = Some r ->
  run text pathRest ((q +:+ "/") +:+ N +:+ ".yaml") cs k = Some r.
Proof.
  intros Hq Hn HN Hk. apply name_char_dot in HN as [Hd Hs].
  unfold pathRest. cbn [run]. rewrite app_assoc.
  apply star_pick; [assumption| |].
  - cbn [String.append]. rewrite Ascii.eqb_refl.
    change (q +:+ String "/" (N +:+ ".yaml")) with (q +:+ "/" +:+ (N +:+ ".yaml")).
    rewrite <- (app_assoc q "/" (N +:+ ".yaml")), consumed_app.
    apply name_step; assumption.
  - intros v s'' E Hv. destruct v as [|c v]; [discriminate|].
    cbn [String.append] in E. injection E as _ E.
    destruct s'' as [|d s'']; [reflexivity|].
    destruct (Ascii.eqb_spec "/" d) as [<-|]; [|reflexivity].
    exfalso. apply (slash_free_split (N +:+ ".yaml") v s''); [|exact E].
    rewrite str_all_app, Hs. reflexivity.
Qed.

Lemma entity_step text e w cs k r :
  is_kind e ->
  run text pathRest w ((2, e) :: (3, e) :: cs) k = Some r ->
  run text entityRest (e +:+ w) cs k = Some r.
Proof.
  intros K H. unfold entityRest, entityAlt.
  destruct K as [-> | [-> | [-> | ->]]];
    cbn [run lits String.append Ascii.eqb Bool.eqb];
    match goal with |- context [consumed ?a w] =>
      match a with
      | String "u" _ => change a with ("user" +:+ w)
      | String "g" _ => change a with ("group" +:+ w)
      | String "p" _ => change a with ("policy" +:+ w)
      | String "r" _ => change a with ("role" +:+ w)
      end
    end; rewrite !consumed_app; rewrite H; reflexivity.
Qed.

(** Everything [pathTail] can match, with the captures it leaves. *)
Lemma pathTail_matches text s s' cs cs' :
  matches text pathTail s s' cs cs' ->
  exists e q n,
    is_kind e /\ str_all is_dot q = true /\
    nonempty n = true /\ str_all is_dot n = true /\
    s = String "/" (e +:+ (q +:+ "/") +:+ n +:+ ".yaml") /\ s' = "" /\
    cs' = (5, n) :: (4, q +:+ "/") :: (2, e) :: (3, e) :: cs.
Proof.
  unfold pathTail, entityRest, pathRest, nameRest. cbn [matches].
  intros (s1 & cs1 & [-> ->] & s2 & cs2 & (cs3 & (cs4 & Me & ->) & ->)
          & s3 & cs5 & (cs6 & (s4 & cs7 & (q & -> & Hq & ->) & -> & ->) & ->)
          & s5 & cs8 & (cs9 & (n & -> & Hn & Hd & ->) & ->) & My).
  apply yamlEnd_matches in My as (-> & -> & ->).
  assert (exists e, is_kind e /\ s1 = e +:+ q +:+ String "/" (n +:+ ".yaml")
                    /\ cs4 = cs) as (e & Ke & -> & ->).
  { unfold entityAlt in Me. simpl in Me. unfold is_kind.
    destruct Me as [Me | [Me | [Me | Me]]];
      repeat match goal with
             | H : exists _, _ |- _ => destruct H
             | H : _ /\ _ |- _ => destruct H
             end; subst; eauto 10. }
  exists e, q, n. rewrite !consumed_app.
  replace (q +:+ String "/" (n +:+ ".yaml")) with ((q +:+ "/") +:+ n +:+ ".yaml")
    by (rewrite !app_assoc; reflexivity).
  rewrite consumed_app. auto 10.
Qed.

Lemma namedMatch_search (fp : string) :
  namedMatch pathRegex fp =
  match search fp pathRegex fp with
  | Some cs =>
      Some (<["name" := cap_get 5 cs]> (<["path" := cap_get 4 cs]>
           (<["" := cap_get 3 cs]> (<["entity" := cap_get 2 cs]>
           (<["account" := cap_get 1 cs]> (<["" := cap_get 0 cs]> ∅))))))
  | None => None
  end.
Proof.
  unfold namedMatch, FindStringSubmatch.
  destruct (search fp pathRegex fp); reflexivity.
Qed.

Lemma named_keys (v0 v1 v2 v3 v4 v5 : string) :
  let result : gmap string string :=
    <["name" := v5]> (<["path" := v4]> (<["" := v3]> (<["entity" := v2]>
    (<["account" := v1]> (<["" := v0]> ∅))))) in
  at_key result "account" = v1 /\ at_key result "entity" = v2 /\
  at_key result "path" = v4 /\ at_key result "name" = v5.
Proof.
  unfold at_key. repeat split; by simplify_map_eq.
Qed.

(** The rendered path is read back as it was written. *)
Lemma rendered_search (A T q N : string) :
  nonempty A = true -> str_all is_dot A = true -> is_kind T ->
  str_all is_dot q = true -> kind_free (q +:+ "/") = true ->
  nonempty N = true -> str_all is_name_char N = true ->
  let text := A +:+ "/" +:+ T +:+ (q +:+ "/") +:+ N +:+ ".yaml" in
  search text pathRegex text
  = Some [(0, text); (5, N); (4, q +:+ "/"); (2, T); (3, T); (1, A)].
Proof.
  intros HA HAd KT Hq Hkf HN HNc text.
  unfold pathRegex. rewrite search_bol. cbn [run].
  destruct A as [|c A']; [discriminate|].
  simpl in HAd. apply andb_prop in HAd as [Hc HAd].
  set (X := "/" +:+ T +:+ (q +:+ "/") +:+ N +:+ ".yaml").
  assert (Et : text = String c (A' +:+ X)) by reflexivity.
  rewrite Et at 1. rewrite Hc.
  apply star_pick; [assumption| |].
  - replace (consumed text X) with (String c A')
      by (rewrite Et; change (String c (A' +:+ X)) with (String c A' +:+ X);
          symmetry; apply consumed_app).
    unfold pathTail, X. cbn [run String.append]. rewrite Ascii.eqb_refl.
    apply entity_step; [assumption|].
    apply path_step; try assumption.
    rewrite consumed_all. reflexivity.
  - intros v s'' E Hv. destruct v as [|d v]; [discriminate|].
    unfold X in E. cbn [String.append] in E. injection E as _ E.
    match goal with |- ?g = None => destruct g eqn:R end; [|reflexivity].
    exfalso. apply run_sound in R as (s3 & cs3 & M & _).
    apply pathTail_matches in M as (e & q' & n & Ke & _ & _ & _ & -> & _).
    apply name_char_dot in HNc as [_ HNs].
    apply (no_later_split T (q +:+ "/") (N +:+ ".yaml") v e q' (n +:+ ".yaml"));
      try assumption.
    + rewrite str_all_app, HNs. reflexivity.
    + rewrite E, !app_assoc. reflexivity.
Qed.

Lemma kind_admitted text e w cs :
  is_kind e -> matches text entityAlt (e +:+ w) w cs cs.
Proof.
  unfold entityAlt.
  intros [-> | [-> | [-> | ->]]]; cbn [matches lits String.append];
    [left | right; left | right; right; left | right; right; right];
    repeat (eexists; eexists; split; [split; reflexivity|]); split; reflexivity.
Qed.

Lemma pathTail_admits text e q n cs :
  is_kind e -> str_all is_dot q = true ->
  nonempty n = true -> str_all is_dot n = true ->
  exists cs',
    matches text pathTail (String "/" (e +:+ (q +:+ "/") +:+ n +:+ ".yaml")) "" cs cs'.
Proof.
  intros Ke Hq Hn Hd.
  unfold pathTail, entityRest, pathRest, nameRest, yamlEnd.
  cbn [matches lits]. eexists.
  exists (e +:+ (q +:+ "/") +:+ n +:+ ".yaml"), cs. split; [split; reflexivity|].
  exists ((q +:+ "/") +:+ n +:+ ".yaml"). eexists. split.
  { eexists. split; [|reflexivity]. eexists. split; [|reflexivity].
    apply kind_admitted, Ke. }
  exists (n +:+ ".yaml"). eexists. split.
  { eexists. split; [|reflexivity].
    exists ("/" +:+ n +:+ ".yaml"). eexists. split.
    - exists q. rewrite app_assoc. auto.
    - split; reflexivity. }
  exists ".yaml". eexists. split.
  { eexists. split; [|reflexivity]. exists n. auto. }
  exists "". eexists. split; [|split; [|split]; reflexivity].
  repeat (eexists; eexists; split; [split; reflexivity|]). split; reflexivity.
Qed.

Lemma Type_is_kind (r : AwsResource) : is_kind (Type_ r).
Proof. unfold is_kind. destruct r; simpl; auto. Qed.

Lemma rendered_parses (A T p N : string) :
  nonempty A = true -> str_all is_dot A = true -> is_kind T ->
  ends_with_slash p = true -> str_all is_dot p = true -> kind_free p = true ->
  nonempty N = true -> str_all is_name_char N = true ->
  parses_to (A +:+ "/" +:+ T +:+ p +:+ N +:+ ".yaml") A T p N.
Proof.
  intros HA HAd KT Hp Hpd Hkf HN HNc.
  apply ends_with_slash_split in Hp as [q ->].
  rewrite str_all_app in Hpd. apply andb_prop in Hpd as [Hq _].
  unfold parses_to. rewrite namedMatch_search.
  rewrite (rendered_search A T q N) by assumption.
  eexists. split; [reflexivity|]. apply named_keys.
Qed.

(** C1 (as amended).  For every account whose canonical string is non-empty
    and holds no newline, and every resource (User, Group, Role or Policy)
    whose path ends in a slash, holds no newline and no slash followed by a
    type key (user, group, policy, role), and whose name is non-empty and
    holds neither a slash nor a newline, parsing the rendered file path
    gives the four components back: the account group is the account's
    canonical string, the entity group is [r.Type()], the path group is
    [r.PathString()] and the name group is [r.NameString()]. *)
Theorem path_round_trip (a : Account) (r : AwsResource) :
  nonempty (Account_String a) = true ->
  str_all is_dot (Account_String a) = true ->
  ends_with_slash (PathString r) = true ->
  str_all is_dot (PathString r) = true ->
  kind_free (PathString r) = true ->
  nonempty (NameString r) = true ->
  str_all is_name_char (NameString r) = true ->
  parses_to (renderPath a r)
            (Account_String a) (Type_ r) (PathString r) (NameString r).
Proof.
  intros. unfold renderPath. apply rendered_parses; auto using Type_is_kind.
Qed.

Lemma path_round_trip_witness :
  renderPath {| Id := "999"; Alias := "" |} deploy_role = "999/role/svc/deploy.yaml" /\
  parses_to (renderPath {| Id := "999"; Alias := "" |} deploy_role)
            "999" "role" "/svc/" "deploy".
Proof.
  split; [reflexivity|].
  apply (path_round_trip {| Id := "999"; Alias := "" |} deploy_role); reflexivity.
Defined.

(** C1 as stated fails: the user named ["a/b"] at path ["/"] is written to
    ["123/user/a/b.yaml"], which is read back as the name ["b"] at the path
    ["/a/"], the very file of the user ["b"] at ["/a/"]. *)
Lemma path_round_trip_counterexample :
  let a := {| Id := "123"; Alias := "" |} in
  let r := RUser {| u_Name := "a/b"; u_Path := "/"; u_Groups := [];
                    u_InlinePolicies := []; u_Policies := [] |} in
  renderPath a r = "123/user/a/b.yaml" /\
  parses_to (renderPath a r) "123" "user" "/a/" "b" /\
  ~ parses_to (renderPath a r)
      (Account_String a) (Type_ r) (PathString r) (NameString r).
Proof.
  intros a r.
  assert (P : parses_to (renderPath a r) "123" "user" "/a/" "b").
  { apply (rendered_parses "123" "user" "/a/" "b"); unfold is_kind; auto. }
  split; [reflexivity|]. split; [exact P|].
  destruct P as (res & E & _ & _ & Hp & _).
  intros (res' & E' & _ & _ & Hp' & _).
  rewrite E in E'. injection E' as <-. rewrite Hp in Hp'. discriminate Hp'.
Qed.

(** A path segment that starts with a type key moves the cut between the
    account and the entity: the account group is greedy. *)
Example segment_named_like_a_kind :
  let a := {| Id := "123"; Alias := "" |} in
  let r := RUser {| u_Name := "bob"; u_Path := "/user/"; u_Groups := [];
                    u_InlinePolicies := []; u_Policies := [] |} in
  renderPath a r = "123/user/user/bob.yaml" /\
  parses_to (renderPath a r) "123/user" "user" "/" "bob".
Proof.
  split; [reflexivity|].
  apply (rendered_parses "123/user" "user" "/" "bob"); unfold is_kind; auto.
Qed.

(** C4 (as amended).  A relative file path matches the parse pattern if and
    only if it has the form [<account>/<typeKey><path><name>.yaml] with
    typeKey one of user, group, policy and role, the account and the name
    non-empty, the path ending in a slash, and no newline in any of the
    three; no other path is accepted.  The account need not be a canonical
    account string and the path need not begin with a slash. *)
Theorem pattern_accepts (fp : string) :
  is_Some (namedMatch pathRegex fp) <-> exists a e p n, path_form fp a e p n.
Proof.
  rewrite namedMatch_search. unfold pathRegex. rewrite search_bol. split.
  - intros [res E].
    destruct (run fp _ fp [] _) as [cs|] eqn:R; [|discriminate].
    apply run_sound in R as (s' & cs' & M & _).
    cbn [matches] in M.
    destruct M as (s1 & cs1 & (cs2 & (a & -> & Ha & Had & ->) & ->) & M).
    apply pathTail_matches in M as (e & q & n & Ke & Hq & Hn & Hnd & -> & _).
    exists a, e, (q +:+ "/"), n. unfold path_form.
    repeat split; auto.
    + apply ends_with_slash_split. eauto.
    + rewrite str_all_app, Hq. reflexivity.
  - intros (a & e & p & n & -> & Ha & Had & Ke & Hp & Hpd & Hn & Hnd).
    apply ends_with_slash_split in Hp as [q ->].
    rewrite str_all_app in Hpd. apply andb_prop in Hpd as [Hq _].
    set (fp := a +:+ "/" +:+ e +:+ (q +:+ "/") +:+ n +:+ ".yaml").
    destruct (pathTail_admits fp e q n [(1, consumed fp (String "/" (e +:+ (q +:+ "/") +:+ n +:+ ".yaml")))]
                Ke Hq Hn Hnd) as [cs' M].
    match goal with |- is_Some (match run fp ?r fp [] ?k with _ => _ end) =>
      destruct (run_complete fp r fp "" [] cs' k ((0, consumed fp "") :: cs'))
        as [x ->]; [|reflexivity|eauto] end.
    cbn [matches]. eexists. eexists. split; [|exact M].
    eexists. split; [|reflexivity]. exists a. auto.
Qed.

Lemma digit_is_word_or_hyphen (c : ascii) :
  is_digit c = true -> is_word_or_hyphen c = true.
Proof.
  unfold is_word_or_hyphen, is_word, is_digit. cbv zeta. intros ->. reflexivity.
Qed.

Lemma digits_are_word_chars (s : string) :
  str_all is_digit s = true -> str_all is_word_or_hyphen s = true.
Proof.
  induction s as [|c s IH]; simpl; [reflexivity|].
  intros H. apply andb_prop in H as [Hc Hs].
  rewrite (digit_is_word_or_hyphen c Hc), (IH Hs). reflexivity.
Qed.

Lemma account_grammar_chars (s : string) :
  account_grammar s -> str_all is_word_or_hyphen s = true.
Proof.
  intros [[_ Hd] | (al & d & -> & _ & Ha & _ & Hd)].
  - apply digits_are_word_chars, Hd.
  - rewrite !str_all_app, Ha, (digits_are_word_chars d Hd). reflexivity.
Qed.

Lemma foo_not_account : ~ account_grammar "foo".
Proof.
  intros G. destruct (account_parse_total _ G) as [a E].
  vm_compute in E. discriminate E.
Qed.

(** C4 as stated fails: ["foo/user/bob.yaml"] matches the pattern, and
    ["foo"] is no canonical account string. *)
Lemma pattern_accepts_counterexample :
  is_Some (namedMatch pathRegex "foo/user/bob.yaml") /\
  ~ documented_form "foo/user/bob.yaml".
Proof.
  split.
  - eexists. vm_compute. reflexivity.
  - intros (a & e & p & n & E & G & _).
    pose proof (account_grammar_chars a G) as Hc.
    destruct a as [|c1 [|c2 [|c3 [|c4 a]]]]; simpl in E; try discriminate E.
    + injection E as <- <- <- _. exact (foo_not_account G).
    + injection E as <- <- <- <- _. discriminate Hc.
Qed.

Example empty_name_not_read_back :
  renderPath {| Id := "123"; Alias := "" |}
             (RUser {| u_Name := ""; u_Path := "/"; u_Groups := [];
                       u_InlinePolicies := []; u_Policies := [] |})
  = "123/user/.yaml" /\
  namedMatch pathRegex "123/user/.yaml" = None.
Proof. split; [reflexivity|]. vm_compute. reflexivity. Qed.

(** ** File-tree loader *)

(** What a match says about the path and the four named groups. *)
Lemma namedMatch_sound (fp : string) (result : gmap string string) :
  namedMatch pathRegex fp = Some result ->
  path_form fp (at_key result "account") (at_key result "entity")
            (at_key result "path") (at_key result "name").
Proof.
  rewrite namedMatch_search. unfold pathRegex. rewrite search_bol.
  destruct (run fp _ fp [] _) as [cs|] eqn:R; [|discriminate].
  intros [= <-].
  apply run_sound in R as (s' & cs' & M & [= <-]).
  cbn [matches] in M.
  destruct M as (s1 & cs1 & (cs2 & (a & -> & Ha & Had & ->) & ->) & M).
  apply pathTail_matches in M as (e & q & n & Ke & Hq & Hn & Hnd & -> & -> & ->).
  rewrite consumed_app. cbn [cap_get Nat.eqb].
  match goal with |- path_form _ (at_key ?m _) _ _ _ =>
    match m with
    | <[_ := ?v5]> (<[_ := ?v4]> (<[_ := ?v3]> (<[_ := ?v2]> (<[_ := ?v1]> (<[_ := ?v0]> ∅))))) =>
        destruct (named_keys v0 v1 v2 v3 v4 v5) as (-> & -> & -> & ->)
    end
  end.
  unfold path_form. repeat split; auto.
  - apply ends_with_slash_split. eauto.
  - rewrite str_all_app, Hq. reflexivity.
Qed.

Lemma matched_entity_kind (fp : string) (result : gmap string string) :
  namedMatch pathRegex fp = Some result -> is_kind (at_key result "entity").
Proof. intros H. apply namedMatch_sound in H. apply H. Qed.

Section LoaderFacts.
Variable os : OS.
Variable yaml : YamlLib.
Variable Dir : string.

Lemma Load_outcome :
  snd (Load os yaml Dir) =
  match walk os Dir with
  | inl err => Returns ([], Some err)
  | inr allFiles =>
      finish (snd (load_loop os yaml Dir allFiles ∅ ["Loading YAML IAM data from " +:+ Dir]))
  end.
Proof.
  unfold Load. destruct (walk os Dir); [reflexivity|].
  destruct (load_loop os yaml Dir _ _ _) as [log' [[err|accounts]|msg]]; reflexivity.
Qed.

Lemma Load_log :
  fst (Load os yaml Dir) =
  match walk os Dir with
  | inl err => ["Loading YAML IAM data from " +:+ Dir]
  | inr allFiles =>
      fst (load_loop os yaml Dir allFiles ∅ ["Loading YAML IAM data from " +:+ Dir])
  end.
Proof.
  unfold Load. destruct (walk os Dir); [reflexivity|].
  destruct (load_loop os yaml Dir _ _ _) as [log' [[err|accounts]|msg]]; reflexivity.
Qed.

Lemma load_loop_skip fp rest accounts log :
  namedMatch pathRegex fp = None ->
  load_loop os yaml Dir (fp :: rest) accounts log
  = load_loop os yaml Dir rest accounts (log ++ ["Skipping " +:+ fp])%list.
Proof. intros H. cbn [load_loop]. rewrite H. reflexivity. Qed.

Lemma load_loop_log_free files : forall accounts log log',
  snd (load_loop os yaml Dir files accounts log) = snd (load_loop os yaml Dir files accounts log').
Proof.
  induction files as [|fp rest IH]; intros accounts log log'; [reflexivity|].
  cbn [load_loop].
  destruct (namedMatch pathRegex fp) as [result|]; [|apply IH].
  destruct (load_matched os yaml Dir fp result accounts) as [[err|accounts']|msg];
    [reflexivity|apply IH|reflexivity].
Qed.

Lemma load_loop_log_grows files : forall accounts log line,
  In line log -> In line (fst (load_loop os yaml Dir files accounts log)).
Proof.
  induction files as [|fp rest IH]; intros accounts log line Hin; [assumption|].
  cbn [load_loop].
  destruct (namedMatch pathRegex fp) as [result|].
  - destruct (load_matched os yaml Dir fp result accounts) as [[err|accounts']|msg];
      [|apply IH|]; cbn [fst]; apply in_or_app; auto.
  - apply IH, in_or_app. auto.
Qed.

Lemma load_loop_app pre : forall rest accounts log log1 accounts1,
  load_loop os yaml Dir pre accounts log = (log1, Returns (inr accounts1)) ->
  load_loop os yaml Dir (pre ++ rest) accounts log = load_loop os yaml Dir rest accounts1 log1.
Proof.
  induction pre as [|fp pre IH]; intros rest accounts log log1 accounts1 H.
  - injection H as <- <-. reflexivity.
  - cbn [load_loop app] in *.
    destruct (namedMatch pathRegex fp) as [result|]; [|exact (IH _ _ _ _ _ H)].
    destruct (load_matched os yaml Dir fp result accounts) as [[err|accounts']|msg];
      [discriminate|exact (IH _ _ _ _ _ H)|discriminate].
Qed.

Lemma load_loop_without pre fp post :
  namedMatch pathRegex fp = None -> forall accounts log,
  snd (load_loop os yaml Dir (pre ++ fp :: post) accounts log)
  = snd (load_loop os yaml Dir (pre ++ post) accounts log).
Proof.
  intros Hfp. induction pre as [|f pre IH]; intros accounts log.
  - cbn [app]. rewrite load_loop_skip by assumption. apply load_loop_log_free.
  - cbn [load_loop app].
    destruct (namedMatch pathRegex f) as [result|]; [|apply IH].
    destruct (load_matched os yaml Dir f result accounts) as [[err|accounts']|msg];
      [reflexivity|apply IH|reflexivity].
Qed.
End LoaderFacts.

Lemma load_loop_listing os yaml Dir listing files : forall accounts log,
  load_loop (with_listing os listing) yaml Dir files accounts log
  = load_loop os yaml Dir files accounts log.
Proof.
  induction files as [|fp rest IH]; intros accounts log; [reflexivity|].
  cbn [load_loop]. destruct (namedMatch pathRegex fp) as [result|]; [|apply IH].
  change (load_matched (with_listing os listing) yaml Dir fp result accounts)
    with (load_matched os yaml Dir fp result accounts).
  destruct (load_matched os yaml Dir fp result accounts) as [[err|accounts']|msg];
    [reflexivity|apply IH|reflexivity].
Qed.

(** C5.  For every file of the tree whose relative path does not match the
    path pattern: the turn of the loop on it logs ["Skipping <path>"] and
    goes on with the accounts unchanged; [Load] returns what it returns on
    the tree without that file, so the file is in no AccountData and causes
    no error; and the skip is in the log of [Load] whenever the files
    listed before it loaded. *)
Theorem unmatched_file_skipped (os : OS) (yaml : YamlLib) (Dir : string)
        (pre post : list string) (fp : string) :
  namedMatch pathRegex fp = None ->
  walk os Dir = inr (pre ++ fp :: post)%list ->
  (forall rest accounts log,
      load_loop os yaml Dir (fp :: rest) accounts log
      = load_loop os yaml Dir rest accounts (log ++ ["Skipping " +:+ fp])%list) /\
  snd (Load os yaml Dir)
  = snd (Load (with_listing os (pre ++ post)%list) yaml Dir) /\
  (forall log1 accounts1,
      load_loop os yaml Dir pre ∅ ["Loading YAML IAM data from " +:+ Dir]
      = (log1, Returns (inr accounts1)) ->
      In ("Skipping " +:+ fp) (fst (Load os yaml Dir))).
Proof.
  intros Hfp Hw. split; [|split].
  - intros. apply load_loop_skip, Hfp.
  - rewrite !Load_outcome, Hw. cbn [walk with_listing].
    rewrite load_loop_listing. f_equal. apply load_loop_without, Hfp.
  - intros log1 accounts1 Hpre. rewrite Load_log, Hw.
    rewrite (load_loop_app _ _ _ _ _ _ _ _ _ Hpre), load_loop_skip by assumption.
    apply load_loop_log_grows, in_or_app. right. left. reflexivity.
Qed.

Lemma unmatched_file_skipped_witness :
  let os := demo_os ["prod-123456789012/user/bob.yaml"; "readme.txt"] readable in
  namedMatch pathRegex "readme.txt" = None /\
  snd (Load os demo_yaml "root")
  = snd (Load (with_listing os ["prod-123456789012/user/bob.yaml"]) demo_yaml "root") /\
  In "Skipping readme.txt" (fst (Load os demo_yaml "root")).
Proof.
  intros os.
  assert (Hn : namedMatch pathRegex "readme.txt" = None) by (vm_compute; reflexivity).
  destruct (unmatched_file_skipped os demo_yaml "root"
              ["prod-123456789012/user/bob.yaml"] [] "readme.txt" Hn eq_refl)
    as (_ & Hsame & Hlog).
  split; [exact Hn|]. split; [exact Hsame|].
  eapply Hlog. vm_compute. reflexivity.
Defined.


Section LoaderRuns.
Variable os : OS.
Variable yaml : YamlLib.
Variable Dir : string.

(** A matched file that reads and decodes, at an account the parser
    takes, lets the loop go on. *)
Lemma load_matched_ok fp result accounts :
  namedMatch pathRegex fp = Some result ->
  load_error os yaml Dir fp = None ->
  account_accepted fp ->
  exists accounts', load_matched os yaml Dir fp result accounts
                    = Returns (inr accounts').
Proof.
  intros Hm He Ha. unfold load_error in He. rewrite Hm in He.
  pose proof (matched_entity_kind _ _ Hm) as Ke.
  destruct (account_parse_total _ (Ha _ Hm)) as [a Hacc].
  unfold load_matched, NewAccountData. rewrite Hacc. cbn [obind].
  set (accounts0 := match accounts !! at_key result "account" with
                    | Some _ => Returns accounts
                    | None => _
                    end).
  assert (exists acc0, accounts0 = Returns acc0) as [acc0 ->].
  { unfold accounts0. destruct (accounts !! _); eauto. }
  cbn [obind]. unfold load_entity.
  destruct Ke as [E | [E | [E | E]]]; rewrite E in *;
    cbn [String.eqb Ascii.eqb Bool.eqb] in *;
    match goal with
    | |- context [unmarshalYamlFile os Dir ?d fp] =>
        destruct (unmarshalYamlFile os Dir d fp); [discriminate He|eauto]
    end.
Qed.

Lemma load_matched_error fp result accounts err :
  namedMatch pathRegex fp = Some result ->
  load_error os yaml Dir fp = Some err ->
  account_accepted fp ->
  load_matched os yaml Dir fp result accounts = Returns (inl err).
Proof.
  intros Hm He Ha. unfold load_error in He. rewrite Hm in He.
  pose proof (matched_entity_kind _ _ Hm) as Ke.
  destruct (account_parse_total _ (Ha _ Hm)) as [a Hacc].
  unfold load_matched, NewAccountData. rewrite Hacc. cbn [obind].
  set (accounts0 := match accounts !! at_key result "account" with
                    | Some _ => Returns accounts
                    | None => _
                    end).
  assert (exists acc0, accounts0 = Returns acc0) as [acc0 ->].
  { unfold accounts0. destruct (accounts !! _); eauto. }
  cbn [obind]. unfold load_entity.
  destruct Ke as [E | [E | [E | E]]]; rewrite E in *;
    cbn [String.eqb Ascii.eqb Bool.eqb] in *;
    match goal with
    | |- context [unmarshalYamlFile os Dir ?d fp] =>
        destruct (unmarshalYamlFile os Dir d fp); [congruence|discriminate He]
    end.
Qed.

Lemma load_loop_ok pre : forall accounts log,
  (forall f, In f pre -> load_error os yaml Dir f = None) ->
  (forall f, In f pre -> account_accepted f) ->
  exists log1 accounts1,
    load_loop os yaml Dir pre accounts log = (log1, Returns (inr accounts1)).
Proof.
  induction pre as [|fp pre IH]; intros accounts log He Ha; [simpl; eauto|].
  cbn [load_loop].
  destruct (namedMatch pathRegex fp) as [result|] eqn:Hm.
  - destruct (load_matched_ok fp result accounts Hm) as [accounts' ->];
      [apply He; left; reflexivity | apply Ha; left; reflexivity|].
    apply IH; intros; [apply He | apply Ha]; right; assumption.
  - apply IH; intros; [apply He | apply Ha]; right; assumption.
Qed.
End LoaderRuns.

(** C6 (as amended).  For every root directory in which some matched file
    cannot be read or decoded into the struct its entity kind names, and in
    which the files listed up to and including the first such file have
    account components [NewAccountFromString] accepts, [Load] stops at that
    file and returns its error with the nil slice, whatever is listed after
    it. *)
Theorem load_fails_fast (os : OS) (yaml : YamlLib) (Dir : string)
        (pre post : list string) (fp : string) (err : error) :
  walk os Dir = inr (pre ++ fp :: post)%list ->
  (forall f, In f pre -> load_error os yaml Dir f = None) ->
  load_error os yaml Dir fp = Some err ->
  (forall f, In f (pre ++ [fp])%list -> account_accepted f) ->
  snd (Load os yaml Dir) = Returns ([], Some err).
Proof.
  intros Hw Hpre Hfp Hacc. rewrite Load_outcome, Hw.
  destruct (load_loop_ok os yaml Dir pre ∅ ["Loading YAML IAM data from " +:+ Dir])
    as (log1 & accounts1 & Hl); [assumption| |].
  { intros f Hf. apply Hacc, in_or_app. auto. }
  rewrite (load_loop_app _ _ _ _ _ _ _ _ _ Hl). cbn [load_loop].
  destruct (namedMatch pathRegex fp) as [result|] eqn:Hm.
  - rewrite (load_matched_error os yaml Dir fp result accounts1 err Hm Hfp).
    + reflexivity.
    + apply Hacc, in_or_app. right. left. reflexivity.
  - unfold load_error in Hfp. rewrite Hm in Hfp. discriminate.
Qed.

Lemma prod_1_accepted (fp : string) :
  fp = "prod-1/user/bob.yaml" \/ fp = "prod-1/user/eve.yaml" ->
  account_accepted fp.
Proof.
  intros [-> | ->] result H; vm_compute in H; injection H as <-;
    match goal with |- account_grammar ?x =>
      replace x with "prod-1" by (vm_compute; reflexivity) end;
    right; exists "prod", "1"; repeat split; reflexivity.
Qed.

Lemma load_fails_fast_witness :
  let os := demo_os ["prod-1/user/bob.yaml"; "prod-1/user/eve.yaml"]
                    (fun path => if String.eqb path "root/prod-1/user/eve.yaml"
                                 then inl "permission denied" else inr "ReadOnly") in
  load_error os demo_yaml "root" "prod-1/user/eve.yaml" = Some "permission denied" /\
  snd (Load os demo_yaml "root") = Returns ([], Some "permission denied").
Proof.
  intros os.
  assert (He : load_error os demo_yaml "root" "prod-1/user/eve.yaml"
               = Some "permission denied") by (vm_compute; reflexivity).
  split; [exact He|].
  apply (load_fails_fast os demo_yaml "root" ["prod-1/user/bob.yaml"] []
           "prod-1/user/eve.yaml" "permission denied").
  - reflexivity.
  - intros f [<- | []]. vm_compute. reflexivity.
  - exact He.
  - intros f [<- | [<- | []]]; apply prod_1_accepted; auto.
Defined.

(** C6 as stated fails: the matched file ["foo/user/bob.yaml"] cannot be
    read, and [Load] panics on its account component before it tries. *)
Lemma load_fails_fast_counterexample :
  let os := demo_os ["foo/user/bob.yaml"] unreadable in
  walk os "root" = inr ["foo/user/bob.yaml"] /\
  load_error os demo_yaml "root" "foo/user/bob.yaml" = Some "permission denied" /\
  snd (Load os demo_yaml "root") = Panics "Can't create account name from foo".
Proof. cbv zeta. repeat split; vm_compute; reflexivity. Qed.


Lemma resources_addUser u ad r :
  In r (resources (addUser u ad)) <-> In r (resources ad) \/ r = RUser u.
Proof.
  unfold resources, addUser. cbn [Users Policies Groups Roles].
  rewrite map_app, !in_app_iff. simpl. intuition.
Qed.

Lemma resources_addGroup g ad r :
  In r (resources (addGroup g ad)) <-> In r (resources ad) \/ r = RGroup g.
Proof.
  unfold resources, addGroup. cbn [Users Policies Groups Roles].
  rewrite map_app, !in_app_iff. simpl. intuition.
Qed.

Lemma resources_addRole x ad r :
  In r (resources (addRole x ad)) <-> In r (resources ad) \/ r = RRole x.
Proof.
  unfold resources, addRole. cbn [Users Policies Groups Roles].
  rewrite map_app, !in_app_iff. simpl. intuition.
Qed.

Lemma resources_addPolicy p ad r :
  In r (resources (addPolicy p ad)) <-> In r (resources ad) \/ r = RPolicy p.
Proof.
  unfold resources, addPolicy. cbn [Users Policies Groups Roles].
  rewrite map_app, !in_app_iff. simpl. intuition.
Qed.

Section Identity.
Variable os : OS.
Variable yaml : YamlLib.
Variable Dir : string.
Variable listing : list string.

Lemma alter_from_paths accounts k (f : AccountData -> AccountData) r0 :
  all_from_paths listing accounts ->
  identity_from_path listing r0 ->
  (forall ad r, In r (resources (f ad)) <-> In r (resources ad) \/ r = r0) ->
  all_from_paths listing (alter f k accounts).
Proof.
  intros Hinv Hr0 Hf k' ad' r Hk Hr.
  apply lookup_alter_Some in Hk as [(<- & ad & Hk & ->) | [_ Hk]].
  - apply Hf in Hr as [Hr | ->]; [exact (Hinv _ _ _ Hk Hr) | exact Hr0].
  - exact (Hinv _ _ _ Hk Hr).
Qed.

Lemma load_entity_from_paths fp accountid entity path name acc0 accounts' :
  all_from_paths listing acc0 ->
  (forall r, Type_ r = entity -> NameString r = name -> PathString r = path ->
             identity_from_path listing r) ->
  load_entity os yaml Dir fp accountid entity path name acc0
  = Returns (inr accounts') ->
  all_from_paths listing accounts'.
Proof.
  intros Hinv Hid. unfold load_entity.
  destruct (String.eqb_spec entity "user") as [->|_].
  { destruct (unmarshalYamlFile _ _ _ _) as [err|x]; intros [= <-].
    apply (alter_from_paths acc0 accountid _ (RUser (set_user name path x)));
      [exact Hinv | apply Hid; reflexivity | apply resources_addUser]. }
  destruct (String.eqb_spec entity "group") as [->|_].
  { destruct (unmarshalYamlFile _ _ _ _) as [err|x]; intros [= <-].
    apply (alter_from_paths acc0 accountid _ (RGroup (set_group name path x)));
      [exact Hinv | apply Hid; reflexivity | apply resources_addGroup]. }
  destruct (String.eqb_spec entity "role") as [->|_].
  { destruct (unmarshalYamlFile _ _ _ _) as [err|x]; intros [= <-].
    apply (alter_from_paths acc0 accountid _ (RRole (set_role name path x)));
      [exact Hinv | apply Hid; reflexivity | apply resources_addRole]. }
  destruct (String.eqb_spec entity "policy") as [->|_]; [|discriminate].
  destruct (unmarshalYamlFile _ _ _ _) as [err|x]; intros [= <-].
  apply (alter_from_paths acc0 accountid _ (RPolicy (set_policy name path x)));
    [exact Hinv | apply Hid; reflexivity | apply resources_addPolicy].
Qed.

Lemma load_matched_from_paths fp result accounts accounts' :
  In fp listing -> namedMatch pathRegex fp = Some result ->
  all_from_paths listing accounts ->
  load_matched os yaml Dir fp result accounts = Returns (inr accounts') ->
  all_from_paths listing accounts'.
Proof.
  intros Hin Hm Hinv. unfold load_matched.
  assert (Hpre : forall acc0,
    match accounts !! at_key result "account" with
    | Some _ => Returns accounts
    | None => obind (NewAccountData (at_key result "account")) (fun ad =>
              Returns (<[at_key result "account" := ad]> accounts))
    end = Returns acc0 -> all_from_paths listing acc0).
  { intros acc0 E0.
    destruct (accounts !! at_key result "account") as [ad|] eqn:Hk.
    - injection E0 as <-. exact Hinv.
    - unfold NewAccountData in E0.
      destruct (NewAccountFromString (at_key result "account")); [|discriminate].
      cbn [obind] in E0. injection E0 as <-.
      intros k' ad' r Hk' Hr.
      apply lookup_insert_Some in Hk' as [[_ <-] | [_ Hk']].
      + destruct Hr.
      + exact (Hinv _ _ _ Hk' Hr). }
  match goal with |- obind ?o _ = _ -> _ =>
    destruct o as [acc0|msg] eqn:E0; [|discriminate] end.
  pose proof (Hpre acc0 E0) as Hinv0. clear Hpre E0.
  cbn [obind]. apply load_entity_from_paths; [exact Hinv0|].
  intros r H1 H2 H3. exists fp, result. auto.
Qed.

Lemma load_loop_from_paths files : forall accounts log log' accounts',
  (forall f, In f files -> In f listing) ->
  all_from_paths listing accounts ->
  load_loop os yaml Dir files accounts log = (log', Returns (inr accounts')) ->
  all_from_paths listing accounts'.
Proof.
  induction files as [|fp rest IH]; intros accounts log log' accounts' Hsub Hinv H.
  - injection H as _ <-. exact Hinv.
  - cbn [load_loop] in H.
    destruct (namedMatch pathRegex fp) as [result|] eqn:Hm.
    + destruct (load_matched os yaml Dir fp result accounts)
        as [[err|accounts1]|msg] eqn:E; try discriminate.
      apply (IH _ _ _ _ (fun f Hf => Hsub f (or_intror Hf))
               (load_matched_from_paths _ _ _ _ (Hsub fp (or_introl eq_refl)) Hm Hinv E) H).
    + exact (IH _ _ _ _ (fun f Hf => Hsub f (or_intror Hf)) Hinv H).
Qed.
End Identity.

(** Every resource [Load] returns has the name and path of its file. *)
Lemma loaded_identity (os : OS) (yaml : YamlLib) (Dir : string)
      (accts : list AccountData) :
  snd (Load os yaml Dir) = Returns (accts, None) ->
  exists listing,
    walk os Dir = inr listing /\
    forall ad r, In ad accts -> In r (resources ad) ->
                 identity_from_path listing r.
Proof.
  rewrite Load_outcome. destruct (walk os Dir) as [err|listing]; [discriminate|].
  destruct (load_loop os yaml Dir listing ∅ _) as [log' o] eqn:E.
  cbn [snd]. destruct o as [[err|accounts]|msg]; cbn [finish]; try discriminate.
  intros [= <-]. exists listing. split; [reflexivity|].
  intros ad r Had Hr.
  apply in_map_iff in Had as ([k ad'] & <- & Hk).
  apply list_elem_of_In, elem_of_map_to_list in Hk.
  assert (Hempty : all_from_paths listing ∅).
  { intros k' ad0 r0 Hk'. rewrite lookup_empty in Hk'. discriminate. }
  exact (load_loop_from_paths os yaml Dir listing listing _ _ _ _
           (fun f H => H) Hempty E k ad' r Hk Hr).
Qed.

(** ** File-tree dumper *)

Lemma encode_struct_keys fields k :
  In k (map fst (encode_struct fields)) ->
  exists oe v, In (TagKey k oe, v) fields.
Proof.
  induction fields as [|[[|k' oe] v] fs IH]; simpl; intros H.
  - destruct H.
  - destruct (IH H) as (oe' & v' & Hin). eauto.
  - destruct (oe && is_empty v).
    + destruct (IH H) as (oe' & v' & Hin). eauto.
    + destruct H as [<- | H]; [eauto|].
      destruct (IH H) as (oe' & v' & Hin). eauto.
Qed.

Lemma file_body_no_identity (r : AwsResource) :
  ~ In "Name" (map fst (file_body r)) /\ ~ In "Path" (map fst (file_body r)).
Proof.
  split; intros H; apply encode_struct_keys in H as (oe & v & H);
    destruct r; simpl in H;
    repeat (destruct H as [H | H]; [discriminate H|]); destruct H.
Qed.

Section DumperFacts.
Variable os : OS.
Variable yaml : YamlLib.
Variable Dir : string.

Lemma writeResource_lookup a r fs fs' err p c :
  writeResource os yaml Dir a r fs = (fs', err) ->
  fs' !! p = Some c ->
  fs !! p = Some c \/
  (p = Join os Dir (renderPath a r) /\ Marshal yaml r = inr c).
Proof.
  unfold writeResource, writeYamlFile, MkdirAll, WriteFile.
  destruct (Marshal yaml r) as [e|b]; [intros [= <- _]; auto|].
  destruct (fails os fs (CallMkdirAll _)); [intros [= <- _]; auto|].
  destruct (fails os fs (CallWriteFile _)); intros [= <- _]; [auto|].
  intros H. apply lookup_insert_Some in H as [[<- <-] | [_ H]]; auto.
Qed.

Lemma writeResource_keeps a r fs fs' err p :
  writeResource os yaml Dir a r fs = (fs', err) ->
  is_Some (fs !! p) -> is_Some (fs' !! p).
Proof.
  unfold writeResource, writeYamlFile, MkdirAll, WriteFile.
  destruct (Marshal yaml r) as [e|b]; [intros [= <- _]; auto|].
  destruct (fails os fs (CallMkdirAll _)); [intros [= <- _]; auto|].
  destruct (fails os fs (CallWriteFile _)); intros [= <- _]; [auto|].
  intros H. apply lookup_insert_is_Some'. auto.
Qed.

Lemma write_all_lookup a rs : forall fs fs' err p c,
  write_all os yaml Dir a rs fs = (fs', err) ->
  fs' !! p = Some c ->
  fs !! p = Some c \/
  exists r, In r rs /\ p = Join os Dir (renderPath a r) /\ Marshal yaml r = inr c.
Proof.
  induction rs as [|r rs IH]; intros fs fs' err p c; cbn [write_all].
  - intros [= <- _]. auto.
  - destruct (writeResource os yaml Dir a r fs) as [fs1 [e|]] eqn:E.
    + intros [= <- _] H.
      destruct (writeResource_lookup _ _ _ _ _ _ _ E H) as [?|[? ?]];
        [auto | right; exists r; simpl; auto].
    + intros H1 H2. destruct (IH _ _ _ _ _ H1 H2) as [H|(r' & ? & ? & ?)].
      * destruct (writeResource_lookup _ _ _ _ _ _ _ E H) as [?|[? ?]];
          [auto | right; exists r; simpl; auto].
      * right. exists r'. simpl. auto.
Qed.

Lemma write_all_keeps a rs : forall fs fs' err p,
  write_all os yaml Dir a rs fs = (fs', err) ->
  is_Some (fs !! p) -> is_Some (fs' !! p).
Proof.
  induction rs as [|r rs IH]; intros fs fs' err p; cbn [write_all].
  - intros [= <- _]. auto.
  - destruct (writeResource os yaml Dir a r fs) as [fs1 [e|]] eqn:E.
    + intros [= <- _]. eapply writeResource_keeps, E.
    + intros H1 H2. eapply IH; [exact H1|]. eapply writeResource_keeps; eauto.
Qed.

Lemma Dump_lookup ad canDelete fs p c :
  (Dump os yaml Dir ad canDelete fs).1 !! p = Some c ->
  fs !! p = Some c \/
  exists r, In r (resources ad) /\
            p = Join os Dir (renderPath (ad_Account ad) r) /\
            Marshal yaml r = inr c.
Proof.
  unfold Dump, RemoveAll.
  assert (Hsub : forall fs1 e,
    (if canDelete
     then match fails os fs (CallRemoveAll (Join os Dir (Account_String (ad_Account ad)))) with
          | Some err => (fs, Some err)
          | None => (filter (fun kv => within os (Join os Dir (Account_String (ad_Account ad))) kv.1 = false) fs, None)
          end
     else (fs, None)) = (fs1, e) ->
    forall q d, fs1 !! q = Some d -> fs !! q = Some d).
  { intros fs1 e H q d. destruct canDelete; [|injection H as <- _; auto].
    destruct (fails os fs _); injection H as <- _; [auto|].
    intros Hq. apply map_lookup_filter_Some in Hq. apply Hq. }
  match goal with |- context [match ?x with (_, _) => _ end] =>
    destruct x as [fs1 [e|]] eqn:E end; cbn [fst].
  - intros H. left. exact (Hsub _ _ eq_refl _ _ H).
  - destruct (write_all os yaml Dir (ad_Account ad) (resources ad) fs1)
      as [fs2 e2] eqn:W. cbn [fst]. intros H.
    destruct (write_all_lookup _ _ _ _ _ _ _ W H) as [H'|H']; [|auto].
    left. exact (Hsub _ _ eq_refl _ _ H').
Qed.
End DumperFacts.

(** C8.  When [Dump] is called with [canDelete] and the removal goes
    through, it behaves as [Dump] without [canDelete] on the tree from which
    exactly the files at or below [destRoot/<canonical account string>] are
    gone: the subtree is cleared, stray files included, before any resource
    file is written, and nothing outside it is removed.  Afterwards every
    file of the subtree is the file rendered from a resource of
    [accountData], and every file that was outside the subtree is still
    there. *)
Theorem destructive_dump (os : OS) (yaml : YamlLib) (Dir : string)
        (accountData : AccountData) (fs : files) :
  let destDir := Join os Dir (Account_String (ad_Account accountData)) in
  let cleared : files := filter (fun kv => within os destDir kv.1 = false) fs in
  fails os fs (CallRemoveAll destDir) = None ->
  Dump os yaml Dir accountData true fs = Dump os yaml Dir accountData false cleared /\
  (forall p, within os destDir p = true -> cleared !! p = None) /\
  (forall p, within os destDir p = false -> cleared !! p = fs !! p) /\
  (forall p c,
      within os destDir p = true ->
      (Dump os yaml Dir accountData true fs).1 !! p = Some c ->
      exists r, In r (resources accountData) /\
                p = Join os Dir (renderPath (ad_Account accountData) r) /\
                Marshal yaml r = inr c) /\
  (forall p,
      within os destDir p = false -> is_Some (fs !! p) ->
      is_Some ((Dump os yaml Dir accountData true fs).1 !! p)).
Proof.
  intros destDir cleared Hrm.
  assert (Hin : forall p, within os destDir p = true -> cleared !! p = None).
  { intros p Hp. apply map_lookup_filter_None. right. intros x _. cbn. congruence. }
  assert (Hout : forall p, within os destDir p = false -> cleared !! p = fs !! p).
  { intros p Hp. destruct (fs !! p) as [x|] eqn:E.
    - apply map_lookup_filter_Some. auto.
    - apply map_lookup_filter_None. auto. }
  assert (HD : Dump os yaml Dir accountData true fs
               = Dump os yaml Dir accountData false cleared).
  { unfold Dump, RemoveAll. fold destDir. rewrite Hrm. reflexivity. }
  split; [exact HD|]. split; [exact Hin|]. split; [exact Hout|]. split.
  - intros p c Hp H. rewrite HD in H.
    apply Dump_lookup in H as [H|H]; [|exact H].
    rewrite (Hin p Hp) in H. discriminate.
  - intros p Hp Hs. rewrite HD. rewrite <- (Hout p Hp) in Hs.
    unfold Dump.
    destruct (write_all os yaml Dir (ad_Account accountData)
                (resources accountData) cleared) as [fs2 e2] eqn:W.
    cbn [fst]. exact (write_all_keeps _ _ _ _ _ _ _ _ _ W Hs).
Qed.

Lemma destructive_dump_witness :
  let destDir := Join (demo_os [] readable) "root"
                      (Account_String (ad_Account account_999)) in
  let cleared : files := filter (fun kv => below destDir kv.1 = false) stray_tree in
  fails (demo_os [] readable) stray_tree (CallRemoveAll destDir) = None /\
  Dump (demo_os [] readable) demo_yaml "root" account_999 true stray_tree
  = Dump (demo_os [] readable) demo_yaml "root" account_999 false cleared /\
  cleared !! "root/999/stray.txt" = None /\
  is_Some ((Dump (demo_os [] readable) demo_yaml "root" account_999 true stray_tree).1
             !! "root/other/keep.txt").
Proof.
  intros destDir cleared.
  destruct (destructive_dump (demo_os [] readable) demo_yaml "root" account_999
              stray_tree eq_refl) as (H1 & H2 & _ & _ & H5).
  split; [reflexivity|]. split; [exact H1|]. split.
  - apply H2. vm_compute. reflexivity.
  - apply H5; [vm_compute; reflexivity|]. eexists. vm_compute. reflexivity.
Defined.

Example dump_writes_the_role :
  (Dump (demo_os [] readable) demo_yaml "root" account_999 true stray_tree).1
  = <["root/999/role/svc/deploy.yaml" := "AssumeRolePolicyDocument"]>
      (<["root/other/keep.txt" := "y"]> ∅).
Proof. vm_compute. reflexivity. Qed.


(** C9.  The mapping at the top of the file written for a resource has no
    key [Name] and no key [Path]; every file [Dump] writes or changes is the
    rendered path of a resource of [accountData] and holds that mapping; and
    every resource [Load] returns has the name and the path captured by the
    path pattern from the location of a listed file, whatever the library
    read in the file. *)
Theorem path_is_identity (os : OS) (yaml : YamlLib) (Dir : string) :
  (forall r : AwsResource,
      ~ In "Name" (map fst (file_body r)) /\ ~ In "Path" (map fst (file_body r))) /\
  (forall accountData canDelete (fs : files) p c,
      (Dump os yaml Dir accountData canDelete fs).1 !! p = Some c ->
      fs !! p <> Some c ->
      exists r, In r (resources accountData) /\
                p = Join os Dir (renderPath (ad_Account accountData) r) /\
                emit yaml (VMap (file_body r)) = inr c) /\
  (forall accts,
      snd (Load os yaml Dir) = Returns (accts, None) ->
      exists listing,
        walk os Dir = inr listing /\
        forall ad r, In ad accts -> In r (resources ad) ->
                     identity_from_path listing r).
Proof.
  split; [exact file_body_no_identity|]. split.
  - intros ad canDelete fs p c H Hne.
    apply Dump_lookup in H as [H|H]; [contradiction|exact H].
  - apply loaded_identity.
Qed.

Lemma path_is_identity_witness :
  exists accts,
    snd (Load (demo_os ["prod-123456789012/user/bob.yaml"] readable) demo_yaml "root")
    = Returns (accts, None) /\
    exists listing,
      walk (demo_os ["prod-123456789012/user/bob.yaml"] readable) "root" = inr listing /\
      forall ad r, In ad accts -> In r (resources ad) ->
                   identity_from_path listing r.
Proof.
  eexists. split; [vm_compute; reflexivity|].
  apply (proj2 (proj2 (path_is_identity
                         (demo_os ["prod-123456789012/user/bob.yaml"] readable)
                         demo_yaml "root"))).
  vm_compute. reflexivity.
Defined.


(** * Further properties of the code *)

(** ** More on the account codec *)

(** X1.  Whenever [NewAccountFromString] returns an account for a string,
    the account is well formed and nothing of the string is lost: the Id is
    a non-empty run of decimal digits, the Alias holds only word characters
    and hyphens, and [Account.String] of the result is the string that was
    parsed. *)
Theorem parsed_account_wellformed (s : string) (a : Account) :
  NewAccountFromString s = Returns a ->
  nonempty (Id a) = true /\ str_all is_digit (Id a) = true /\
  str_all is_word_or_hyphen (Alias a) = true /\
  Account_String a = s.
Proof.
  intros H. apply account_parse_shape in H. unfold Account_String.
  destruct H as [(Ha & Hi & Hn & Hd) | (Hs & Han & Ha & Hn & Hd)].
  - rewrite Ha, Hi. auto.
  - rewrite Han, <- Hs. auto.
Qed.

Lemma parsed_account_wellformed_witness :
  NewAccountFromString "my-org-42" = Returns {| Id := "42"; Alias := "my-org" |} /\
  Account_String {| Id := "42"; Alias := "my-org" |} = "my-org-42".
Proof.
  assert (H : NewAccountFromString "my-org-42"
              = Returns {| Id := "42"; Alias := "my-org" |})
    by (vm_compute; reflexivity).
  split; [exact H|].
  exact (proj2 (proj2 (proj2 (parsed_account_wellformed _ _ H)))).
Defined.

Lemma policy_prefix_app (a : Account) (name : string) :
  "arn:aws:iam::" +:+ Id a +:+ ":policy/" +:+ name
  = ("arn:aws:iam::" +:+ Id a +:+ ":policy/") +:+ name.
Proof. rewrite !app_assoc. reflexivity. Qed.

(** X2.  [policyArnFromString] always returns a string that starts with
    ["arn:"], and applying it to its own result changes nothing.  On a name
    that does not start with ["arn:"] it builds the ARN [arnFor] builds for
    the key ["policy"], the path ["/"] and that name.  In the other
    direction, an ARN that [normalisePolicyArn] cuts down to a name that
    does not start with ["arn:"] is given back by [policyArnFromString] from
    that name. *)
Theorem policy_arn_canonical (a : Account) (s : string) :
  HasPrefix (policyArnFromString a s) "arn:" = true /\
  policyArnFromString a (policyArnFromString a s) = policyArnFromString a s /\
  (HasPrefix s "arn:" = false ->
   policyArnFromString a s = arnFor a "policy" "/" s) /\
  (HasPrefix s "arn:" = true ->
   HasPrefix (normalisePolicyArn a s) "arn:" = false ->
   policyArnFromString a (normalisePolicyArn a s) = s).
Proof.
  assert (H : HasPrefix (policyArnFromString a s) "arn:" = true).
  { unfold policyArnFromString. destruct (HasPrefix s "arn:") eqn:E; [exact E|].
    reflexivity. }
  split; [exact H|]. split; [|split].
  - unfold policyArnFromString at 1. rewrite H. reflexivity.
  - intros E. unfold policyArnFromString, arnFor. rewrite E. reflexivity.
  - intros Harn. unfold normalisePolicyArn, TrimPrefix.
    destruct (HasPrefix s ("arn:aws:iam::" +:+ Id a +:+ ":policy/")) eqn:E.
    + apply prefix_split in E as [t ->]. rewrite str_drop_app.
      intros Ht. unfold policyArnFromString. rewrite Ht.
      apply policy_prefix_app.
    + congruence.
Qed.

Lemma policy_arn_canonical_witness :
  normalisePolicyArn {| Id := "999"; Alias := "" |} "arn:aws:iam::999:policy/ReadOnly"
  = "ReadOnly" /\
  policyArnFromString {| Id := "999"; Alias := "" |}
    (normalisePolicyArn {| Id := "999"; Alias := "" |} "arn:aws:iam::999:policy/ReadOnly")
  = "arn:aws:iam::999:policy/ReadOnly".
Proof.
  split; [reflexivity|].
  apply (proj2 (proj2 (proj2 (policy_arn_canonical _ _)))); reflexivity.
Defined.

Lemma str_app_inv_tail (t : string) : forall a b, a +:+ t = b +:+ t -> a = b.
Proof.
  induction a as [|c a IH]; intros [|d b] E; simpl in E.
  - reflexivity.
  - apply (f_equal String.length) in E. simpl in E. rewrite length_app in E. lia.
  - apply (f_equal String.length) in E. simpl in E. rewrite length_app in E. lia.
  - injection E as -> E. f_equal. exact (IH _ E).
Qed.

Lemma str_app_inv_head (h : string) : forall a b, h +:+ a = h +:+ b -> a = b.
Proof. induction h as [|c h IH]; simpl; intros a b E; [exact E|]. injection E as E. auto. Qed.

Lemma Arn_suffix (a : Account) (r : AwsResource) :
  Arn r a = ("arn:aws:iam::" +:+ Id a +:+ ":")
            +:+ (Type_ r +:+ PathString r +:+ NameString r).
Proof. unfold Arn, arnFor. rewrite !app_assoc. reflexivity. Qed.

Lemma renderPath_suffix (a : Account) (r : AwsResource) :
  renderPath a r = (Account_String a +:+ "/")
                   +:+ (Type_ r +:+ PathString r +:+ NameString r) +:+ ".yaml".
Proof. unfold renderPath. rewrite !app_assoc. reflexivity. Qed.

(** X3.  Two resources have the same ARN in an account exactly when
    [renderPath] gives them the same file in that account: both are the
    type key, the path and the name written one after the other, so
    resources that collide on a file are resources AWS cannot tell apart
    either, and conversely. *)
Theorem same_arn_same_file (a : Account) (r r' : AwsResource) :
  Arn r a = Arn r' a <-> renderPath a r = renderPath a r'.
Proof.
  rewrite !Arn_suffix, !renderPath_suffix. split; intros H.
  - apply str_app_inv_head in H. rewrite H. reflexivity.
  - apply str_app_inv_head, str_app_inv_tail in H. rewrite H. reflexivity.
Qed.

(** ** More on the path codec *)

Lemma named_map (v0 v1 v2 v4 v5 : string) :
  (<["name" := v5]> (<["path" := v4]> (<["" := v2]> (<["entity" := v2]>
     (<["account" := v1]> (<["" := v0]> ∅))))) : gmap string string)
  = <["account" := v1]> (<["entity" := v2]> (<["path" := v4]>
      (<["name" := v5]> {[ "" := v2 ]}))).
Proof.
  apply map_eq. intros k.
  destruct (decide (k = "name")) as [-> |]; [by simplify_map_eq|].
  destruct (decide (k = "path")) as [-> |]; [by simplify_map_eq|].
  destruct (decide (k = "")) as [-> |]; [by simplify_map_eq|].
  destruct (decide (k = "entity")) as [-> |]; [by simplify_map_eq|].
  destruct (decide (k = "account")) as [-> |]; by simplify_map_eq.
Qed.

(** X4.  Every path the pattern of the file tree matches is the account
    group, a slash, the entity group, the path group, the name group and
    [".yaml"] written one after the other, with nothing between or around
    them; the account and the name are not empty, the entity is one of
    user, group, policy and role, and the path ends in a slash.  The map
    [namedMatch] returns holds these four groups under their names and one
    more key, the empty one, with the entity under it: the whole match and
    the inner group of the entity both have the empty name, and the later
    one is stored last. *)
Theorem matched_path_decomposes (fp : string) (result : gmap string string) :
  namedMatch pathRegex fp = Some result ->
  fp = at_key result "account" +:+ "/" +:+ at_key result "entity"
       +:+ at_key result "path" +:+ at_key result "name" +:+ ".yaml" /\
  nonempty (at_key result "account") = true /\
  is_kind (at_key result "entity") /\
  ends_with_slash (at_key result "path") = true /\
  nonempty (at_key result "name") = true /\
  result = <["account" := at_key result "account"]>
             (<["entity" := at_key result "entity"]>
             (<["path" := at_key result "path"]>
             (<["name" := at_key result "name"]>
             {[ "" := at_key result "entity" ]}))).
Proof.
  intros H. pose proof (namedMatch_sound _ _ H) as (E & Ha & _ & Ke & Hp & _ & Hn & _).
  repeat (split; [assumption|]).
  revert H. rewrite namedMatch_search. unfold pathRegex. rewrite search_bol.
  destruct (run fp _ fp [] _) as [cs|] eqn:R; [|discriminate].
  intros [= <-].
  apply run_sound in R as (s' & cs' & M & [= <-]).
  cbn [matches] in M.
  destruct M as (s1 & cs1 & (cs2 & (a & -> & _ & _ & ->) & ->) & M).
  apply pathTail_matches in M as (e & q & n & _ & _ & _ & _ & -> & -> & ->).
  cbn [cap_get Nat.eqb].
  match goal with |- ?m = _ =>
    match m with
    | <[_ := ?v5]> (<[_ := ?v4]> (<[_ := ?v3]> (<[_ := ?v2]> (<[_ := ?v1]> (<[_ := ?v0]> ∅))))) =>
        destruct (named_keys v0 v1 v2 v3 v4 v5) as (-> & -> & -> & ->)
    end
  end.
  apply named_map.
Qed.

Lemma matched_path_decomposes_witness :
  exists result,
    namedMatch pathRegex "prod-1/group/eng/ops/admins.yaml" = Some result /\
    at_key result "path" = "/eng/ops/" /\
    at_key result "" = "group" /\
    "prod-1/group/eng/ops/admins.yaml"
    = at_key result "account" +:+ "/" +:+ at_key result "entity"
      +:+ at_key result "path" +:+ at_key result "name" +:+ ".yaml".
Proof.
  eexists. split; [vm_compute; reflexivity|]. split; [vm_compute; reflexivity|].
  split; [vm_compute; reflexivity|].
  refine (proj1 (matched_path_decomposes _ _ _)). vm_compute. reflexivity.
Defined.

Lemma star_none_inv {R} (p : ascii -> bool) (s : string) (k : string -> option R) :
  star p s k = None ->
  forall u s', s = u +:+ s' -> str_all p u = true -> k s' = None.
Proof.
  intros H u s' -> Hu. destruct (k s') as [r|] eqn:E; [|reflexivity].
  destruct (star_complete p u s' k r Hu E) as [r' Hr']. congruence.
Qed.

(** The repetition stops at the longest run the continuation takes. *)
Lemma star_longest {R} (p : ascii -> bool) (s : string) (k : string -> option R) r :
  star p s k = Some r ->
  exists u s',
    s = u +:+ s' /\ str_all p u = true /\ k s' = Some r /\
    forall u2 s2, s = u2 +:+ s2 -> str_all p u2 = true ->
                  String.length u < String.length u2 -> k s2 = None.
Proof.
  induction s as [|c s IH]; cbn [star]; intros H.
  - exists "", "". repeat split; auto.
    intros [|d u2] s2 E _ Hl; [simpl in Hl; lia | discriminate E].
  - destruct (p c) eqn:Hc.
    + destruct (star p s k) as [r0|] eqn:Hs.
      * injection H as <-.
        destruct (IH eq_refl) as (u & s' & -> & Hu & Hk & Hmax).
        exists (String c u), s'. simpl. rewrite Hc, Hu. repeat split; auto.
        intros [|d u2] s2 E Hu2 Hl; [simpl in Hl; lia|].
        simpl in E, Hu2, Hl. injection E as <- E.
        apply andb_prop in Hu2 as [_ Hu2]. apply (Hmax u2 s2 E Hu2). lia.
      * exists "", (String c s). repeat split; auto.
        intros [|d u2] s2 E Hu2 Hl; [simpl in Hl; lia|].
        simpl in E, Hu2. injection E as <- E.
        apply andb_prop in Hu2 as [_ Hu2].
        exact (star_none_inv p s k Hs u2 s2 E Hu2).
    + exists "", (String c s). repeat split; auto.
      intros [|d u2] s2 E Hu2 Hl; [simpl in Hl; lia|].
      simpl in E, Hu2. injection E as <- E. rewrite Hc in Hu2. discriminate.
Qed.

(** X5.  The account group is greedy: whenever a matched path can be cut
    as [<a>/<kind><p><n>.yaml] with [a] and [n] non-empty, [kind] one of the
    four type keys, [p] ending in a slash and no newline in any of them,
    the account group [namedMatch] returns is at least as long as [a].  A
    directory named like a type key below the account thus goes to the
    account, not to the path. *)
Theorem account_group_longest (fp : string) (result : gmap string string)
        (a e p n : string) :
  namedMatch pathRegex fp = Some result ->
  path_form fp a e p n ->
  String.length a <= String.length (at_key result "account").
Proof.
  intros Hm (Efp & Ha & Had & Ke & Hp & Hpd & Hn & Hnd).
  apply ends_with_slash_split in Hp as [q ->].
  rewrite str_all_app in Hpd. apply andb_prop in Hpd as [Hq _].
  rewrite namedMatch_search in Hm. unfold pathRegex in Hm.
  rewrite search_bol in Hm.
  destruct (run fp _ fp [] _) as [cs|] eqn:R; [|discriminate].
  injection Hm as <-.
  cbn [run] in R.
  destruct fp as [|c s0]; [discriminate R|].
  destruct (is_dot c) eqn:Hc; [|discriminate R].
  apply star_longest in R as (u & s' & Es & Hu & Hk & Hmax).
  pose proof Hk as Hk'.
  apply run_sound in Hk' as (s3 & cs3 & M & [= <-]).
  apply pathTail_matches in M as (e' & q' & n' & _ & _ & _ & _ & _ & _ & ->).
  cbn [cap_get Nat.eqb].
  match goal with |- _ <= String.length (at_key ?m _) =>
    match m with
    | <[_ := ?v5]> (<[_ := ?v4]> (<[_ := ?v3]> (<[_ := ?v2]> (<[_ := ?v1]> (<[_ := ?v0]> ∅))))) =>
        destruct (named_keys v0 v1 v2 v3 v4 v5) as (-> & _)
    end
  end.
  subst s0. change (String c (u +:+ s')) with (String c u +:+ s').
  rewrite consumed_app.
  destruct a as [|c' a']; [discriminate Ha|].
  simpl in Efp, Had. injection Efp as <- Efp.
  apply andb_prop in Had as [_ Had].
  destruct (le_lt_dec (String.length (String c a')) (String.length (String c u)))
    as [Hle|Hlt]; [exact Hle|exfalso].
  simpl in Hlt.
  assert (Hnone := Hmax a' _ Efp Had ltac:(lia)).
  cbv beta in Hnone.
  destruct (pathTail_admits (String c (u +:+ s')) e q n
              [(1, consumed (String c (u +:+ s'))
                     (String "/" (e +:+ (q +:+ "/") +:+ n +:+ ".yaml")))]
              Ke Hq Hn Hnd) as [cs' M].
  destruct (run_complete _ _ _ _ _ _
              (fun s'' cs'' => Some ((0, consumed (String c (u +:+ s')) s'') :: cs''))
              _ M eq_refl) as [x Hx].
  congruence.
Qed.

Lemma account_group_longest_witness :
  exists result,
    namedMatch pathRegex "123/user/user/bob.yaml" = Some result /\
    path_form "123/user/user/bob.yaml" "123" "user" "/user/" "bob" /\
    at_key result "account" = "123/user" /\
    String.length "123" <= String.length (at_key result "account").
Proof.
  assert (F : path_form "123/user/user/bob.yaml" "123" "user" "/user/" "bob").
  { unfold path_form, is_kind. repeat split; auto. }
  eexists. split; [vm_compute; reflexivity|]. split; [exact F|].
  split; [vm_compute; reflexivity|].
  refine (account_group_longest _ _ _ _ _ _ _ F). vm_compute. reflexivity.
Defined.

(** ** Resource lookup *)

Lemma first_match_finds {T} (test : T -> bool) (same : T -> Prop) (l : list T) :
  (forall x, test x = true <-> same x) ->
  finds_first same l (first_match test l).
Proof.
  intros Hts. induction l as [|x l IH]; cbn [first_match].
  - intros v [].
  - destruct (test x) eqn:E.
    + exists [], l. split; [reflexivity|]. split; [apply Hts, E|]. intros v [].
    + assert (Hx : ~ same x) by (rewrite <- Hts; congruence).
      destruct (first_match test l) as [y|]; cbn [finds_first] in *.
      * destruct IH as (before & after & -> & Hy & Hb).
        exists (x :: before), after. split; [reflexivity|]. split; [exact Hy|].
        intros v [<- | Hv]; auto.
      * intros v [<- | Hv]; auto.
Qed.

Lemma identity_test (n1 p1 name path : string) :
  (n1 =? name)%string && (p1 =? path)%string = true <-> n1 = name /\ p1 = path.
Proof.
  rewrite andb_true_iff, !String.eqb_eq. reflexivity.
Qed.

(** X6.  [FindUserByName], [FindGroupByName], [FindRoleByName] and
    [FindPolicyByName] return the first element of their list whose name
    and path are the ones asked for, and nothing exactly when the list
    holds no such element. *)
Theorem lookup_finds_first (ad : AccountData) (name path : string) :
  finds_first (fun u => u_Name u = name /\ u_Path u = path)
              (Users ad) (FindUserByName ad name path) /\
  finds_first (fun g => g_Name g = name /\ g_Path g = path)
              (Groups ad) (FindGroupByName ad name path) /\
  finds_first (fun r => r_Name r = name /\ r_Path r = path)
              (Roles ad) (FindRoleByName ad name path) /\
  finds_first (fun p => p_Name p = name /\ p_Path p = path)
              (Policies ad) (FindPolicyByName ad name path).
Proof.
  repeat split; apply first_match_finds; intros x; apply identity_test.
Qed.

Lemma first_match_snoc {T} (test : T -> bool) (l : list T) (x : T) :
  first_match test (l ++ [x])%list =
  match first_match test l with
  | Some v => Some v
  | None => if test x then Some x else None
  end.
Proof.
  induction l as [|y l IH]; cbn [first_match app]; [reflexivity|].
  destruct (test y); [reflexivity|exact IH].
Qed.

(** X7.  A lookup after [addUser] (and likewise [addGroup], [addRole],
    [addPolicy]) finds what it found before when it found something: an
    element added last never hides an earlier one of the same name and
    path.  When it found nothing before, it finds the added element exactly
    when that one has the name and path asked for. *)
Theorem lookup_after_add (ad : AccountData) (name path : string) :
  (forall u, FindUserByName (addUser u ad) name path =
             match FindUserByName ad name path with
             | Some v => Some v
             | None => if String.eqb (u_Name u) name && String.eqb (u_Path u) path
                       then Some u else None
             end) /\
  (forall g, FindGroupByName (addGroup g ad) name path =
             match FindGroupByName ad name path with
             | Some v => Some v
             | None => if String.eqb (g_Name g) name && String.eqb (g_Path g) path
                       then Some g else None
             end) /\
  (forall r, FindRoleByName (addRole r ad) name path =
             match FindRoleByName ad name path with
             | Some v => Some v
             | None => if String.eqb (r_Name r) name && String.eqb (r_Path r) path
                       then Some r else None
             end) /\
  (forall p, FindPolicyByName (addPolicy p ad) name path =
             match FindPolicyByName ad name path with
             | Some v => Some v
             | None => if String.eqb (p_Name p) name && String.eqb (p_Path p) path
                       then Some p else None
             end).
Proof.
  unfold FindUserByName, FindGroupByName, FindRoleByName, FindPolicyByName,
         addUser, addGroup, addRole, addPolicy.
  cbn [Users Groups Roles Policies].
  repeat split; intros x.
  - exact (first_match_snoc
             (fun u => String.eqb (u_Name u) name && String.eqb (u_Path u) path) _ x).
  - exact (first_match_snoc
             (fun g => String.eqb (g_Name g) name && String.eqb (g_Path g) path) _ x).
  - exact (first_match_snoc
             (fun r => String.eqb (r_Name r) name && String.eqb (r_Path r) path) _ x).
  - exact (first_match_snoc
             (fun p => String.eqb (p_Name p) name && String.eqb (p_Path p) path) _ x).
Qed.

(** ** What [Load] collects *)

Lemma add_resource_lists (r : AwsResource) (ad : AccountData) :
  ad_Account (add_resource r ad) = ad_Account ad /\
  Users (add_resource r ad) = (Users ad ++ users_of [r])%list /\
  Groups (add_resource r ad) = (Groups ad ++ groups_of [r])%list /\
  Roles (add_resource r ad) = (Roles ad ++ roles_of [r])%list /\
  Policies (add_resource r ad) = (Policies ad ++ policies_of [r])%list.
Proof.
  destruct r; simpl; rewrite ?List.app_nil_r; auto.
Qed.

Lemma contributions_snoc os yaml Dir k done fp :
  contributions os yaml Dir k (done ++ [fp])%list
  = (contributions os yaml Dir k done
     ++ match contribution os yaml Dir fp with
        | Some (k', r) => if String.eqb k' k then [r] else []
        | None => []
        end)%list.
Proof.
  unfold contributions. rewrite flat_map_app. simpl.
  rewrite List.app_nil_r. reflexivity.
Qed.

Lemma kinds_of_app (l1 l2 : list AwsResource) :
  users_of (l1 ++ l2) = (users_of l1 ++ users_of l2)%list /\
  groups_of (l1 ++ l2) = (groups_of l1 ++ groups_of l2)%list /\
  roles_of (l1 ++ l2) = (roles_of l1 ++ roles_of l2)%list /\
  policies_of (l1 ++ l2) = (policies_of l1 ++ policies_of l2)%list.
Proof.
  unfold users_of, groups_of, roles_of, policies_of.
  rewrite !flat_map_app. auto.
Qed.

Section Collecting.
Variable os : OS.
Variable yaml : YamlLib.
Variable Dir : string.

(** A turn of the switch that goes on has added the contribution of the
    file. *)
Lemma load_entity_adds fp result k acc0 acc' :
  namedMatch pathRegex fp = Some result ->
  at_key result "account" = k ->
  load_entity os yaml Dir fp k (at_key result "entity")
              (at_key result "path") (at_key result "name") acc0
  = Returns (inr acc') ->
  exists r, contribution os yaml Dir fp = Some (k, r) /\
            acc' = alter (add_resource r) k acc0.
Proof.
  intros Hm <-. unfold load_entity, contribution. rewrite Hm. cbv zeta.
  destruct (String.eqb (at_key result "entity") "user").
  { destruct (unmarshalYamlFile _ _ _ _) as [err|x]; intros [= <-]. eauto. }
  destruct (String.eqb (at_key result "entity") "group").
  { destruct (unmarshalYamlFile _ _ _ _) as [err|x]; intros [= <-]. eauto. }
  destruct (String.eqb (at_key result "entity") "role").
  { destruct (unmarshalYamlFile _ _ _ _) as [err|x]; intros [= <-]. eauto. }
  destruct (String.eqb (at_key result "entity") "policy"); [|discriminate].
  destruct (unmarshalYamlFile _ _ _ _) as [err|x]; intros [= <-]. eauto.
Qed.

Lemma contribution_unmatched fp :
  namedMatch pathRegex fp = None -> contribution os yaml Dir fp = None.
Proof. intros H. unfold contribution. rewrite H. reflexivity. Qed.

Lemma contribution_account fp k r :
  contribution os yaml Dir fp = Some (k, r) ->
  exists result, namedMatch pathRegex fp = Some result /\
                 at_key result "account" = k.
Proof.
  unfold contribution. destruct (namedMatch pathRegex fp) as [result|]; [|discriminate].
  cbv zeta. intros H. exists result. split; [reflexivity|].
  repeat match type of H with
         | (if ?b then _ else _) = _ => destruct b
         | match ?x with inl _ => _ | inr _ => _ end = _ => destruct x
         end; congruence.
Qed.

Lemma contributions_none k done :
  (forall fp result, In fp done -> namedMatch pathRegex fp = Some result ->
                     at_key result "account" <> k) ->
  contributions os yaml Dir k done = [].
Proof.
  induction done as [|fp done IH]; intros H; [reflexivity|].
  unfold contributions. cbn [flat_map]. fold (contributions os yaml Dir k done).
  rewrite IH by (intros f res Hin; apply H; right; exact Hin).
  destruct (contribution os yaml Dir fp) as [[k' r]|] eqn:E; [|reflexivity].
  apply contribution_account in E as (result & Hm & <-).
  destruct (String.eqb_spec (at_key result "account") k) as [Heq|]; [|reflexivity].
  exfalso. exact (H fp result (or_introl eq_refl) Hm Heq).
Qed.

Lemma collected_skip done accounts fp :
  namedMatch pathRegex fp = None ->
  collected os yaml Dir done accounts ->
  collected os yaml Dir (done ++ [fp]) accounts.
Proof.
  intros Hn [H1 H2]. split.
  - intros k ad Hk.
    destruct (H1 k ad Hk) as (Ha & Hu & Hg & Hr & Hp & f & res & Hin & Hf & Hacc).
    rewrite contributions_snoc, (contribution_unmatched fp Hn), List.app_nil_r.
    repeat split; auto.
    exists f, res. split; [apply in_or_app; auto|auto].
  - intros k Hk f res Hin Hf. apply in_app_or in Hin as [Hin | [<- | []]].
    + exact (H2 k Hk f res Hin Hf).
    + congruence.
Qed.

Lemma collected_step done accounts fp result accounts' :
  namedMatch pathRegex fp = Some result ->
  collected os yaml Dir done accounts ->
  load_matched os yaml Dir fp result accounts = Returns (inr accounts') ->
  collected os yaml Dir (done ++ [fp]) accounts'.
Proof.
  intros Hm [H1 H2]. unfold load_matched, accounts_map in *.
  remember (at_key result "account") as k0 eqn:Ek0. symmetry in Ek0.
  match goal with |- obind ?o _ = _ -> _ =>
    assert (Hacc0 : forall acc0, o = Returns acc0 ->
      (exists ad0, acc0 !! k0 = Some ad0 /\
                   NewAccountFromString k0 = Returns (ad_Account ad0) /\
                   Users ad0 = users_of (contributions os yaml Dir k0 done) /\
                   Groups ad0 = groups_of (contributions os yaml Dir k0 done) /\
                   Roles ad0 = roles_of (contributions os yaml Dir k0 done) /\
                   Policies ad0 = policies_of (contributions os yaml Dir k0 done)) /\
      (forall k, k0 <> k -> acc0 !! k = accounts !! k));
    [|destruct o as [acc0|msg] eqn:E0; [|discriminate]]
  end.
  { intros acc0. destruct (accounts !! k0) as [ad0|] eqn:Hk0; cbv beta iota.
    - intros [= <-]. split; [|reflexivity].
      exists ad0. destruct (H1 _ _ Hk0) as (? & ? & ? & ? & ? & _). auto 10.
    - unfold NewAccountData.
      destruct (NewAccountFromString k0) as [a0|msg] eqn:Ha0; cbn [obind];
        [|discriminate].
      intros [= <-]. split.
      + eexists. rewrite lookup_insert_eq. split; [reflexivity|].
        rewrite (contributions_none k0 done (H2 k0 Hk0)). cbn. auto 10.
      + intros k Hne. apply lookup_insert_ne, Hne. }
  destruct (Hacc0 acc0 eq_refl) as ((ad0 & Hk0 & Ha0 & Hu0 & Hg0 & Hr0 & Hp0) & Hother).
  clear Hacc0 E0. cbn [obind].
  intros He. apply load_entity_adds in He as (r0 & Hc & ->); [|exact Hm|exact Ek0].
  split.
  - intros k ad Hk. rewrite contributions_snoc, Hc.
    apply lookup_alter_Some in Hk as [(<- & ad1 & Hk1 & ->) | [Hne Hk]].
    + rewrite Hk0 in Hk1. injection Hk1 as <-. rewrite String.eqb_refl.
      destruct (add_resource_lists r0 ad0) as (-> & -> & -> & -> & ->).
      destruct (kinds_of_app (contributions os yaml Dir k0 done) [r0])
        as (-> & -> & -> & ->).
      rewrite Hu0, Hg0, Hr0, Hp0. repeat split; auto.
      exists fp, result. split; [apply in_or_app; right; left; reflexivity|auto].
    + rewrite (Hother k Hne) in Hk.
      destruct (H1 _ _ Hk) as (Ha & Hu & Hg & Hr & Hp & f & res & Hin & Hf & Hacc).
      apply String.eqb_neq in Hne. rewrite Hne, List.app_nil_r.
      repeat split; auto.
      exists f, res. split; [apply in_or_app; auto|auto].
  - intros k Hk f res Hin Hf. apply lookup_alter_None in Hk.
    assert (Hne : k0 <> k) by (intros <-; congruence).
    rewrite (Hother k Hne) in Hk.
    apply in_app_or in Hin as [Hin | [<- | []]].
    + exact (H2 k Hk f res Hin Hf).
    + rewrite Hm in Hf. injection Hf as <-. rewrite Ek0. exact Hne.
Qed.

Lemma load_loop_collects files : forall done accounts log log' accounts',
  collected os yaml Dir done accounts ->
  load_loop os yaml Dir files accounts log = (log', Returns (inr accounts')) ->
  collected os yaml Dir (done ++ files) accounts'.
Proof.
  induction files as [|fp rest IH]; intros done accounts log log' accounts' Hc H.
  - injection H as _ <-. rewrite List.app_nil_r. exact Hc.
  - cbn [load_loop] in H.
    replace (done ++ fp :: rest)%list with ((done ++ [fp]) ++ rest)%list
      by (rewrite <- List.app_assoc; reflexivity).
    destruct (namedMatch pathRegex fp) as [result|] eqn:Hm.
    + destruct (load_matched os yaml Dir fp result accounts)
        as [[err|accounts1]|msg] eqn:E; try discriminate.
      exact (IH _ _ _ _ _ (collected_step _ _ _ _ _ Hm Hc E) H).
    + exact (IH _ _ _ _ _ (collected_skip _ _ _ Hm Hc) H).
Qed.
End Collecting.

Lemma collected_empty os yaml Dir : collected os yaml Dir [] ∅.
Proof.
  split.
  - intros k ad H. rewrite lookup_empty in H. discriminate.
  - intros k _ fp result [].
Qed.

Lemma parsed_key_string (k : string) (a : Account) :
  NewAccountFromString k = Returns a -> Account_String a = k.
Proof.
  intros H. apply account_parse_shape in H. unfold Account_String.
  destruct H as [(Ha & Hi & _) | (Hs & Han & _)].
  - rewrite Ha, Hi. reflexivity.
  - rewrite Han, <- Hs. reflexivity.
Qed.

(** X8.  When [Load] succeeds, each account it returns holds exactly the
    resources the files of the walk add to its account string: the Users
    are the users decoded from the matched user files of that account with
    the name and path of their file, in the order of the walk, and likewise
    the Groups, Roles and Policies; no resource is dropped, doubled or put
    under another account. *)
Theorem Load_collects (os : OS) (yaml : YamlLib) (Dir : string)
        (accts : list AccountData) :
  snd (Load os yaml Dir) = Returns (accts, None) ->
  exists listing,
    walk os Dir = inr listing /\
    forall ad, In ad accts ->
      let k := Account_String (ad_Account ad) in
      Users ad = users_of (contributions os yaml Dir k listing) /\
      Groups ad = groups_of (contributions os yaml Dir k listing) /\
      Roles ad = roles_of (contributions os yaml Dir k listing) /\
      Policies ad = policies_of (contributions os yaml Dir k listing).
Proof.
  rewrite Load_outcome. destruct (walk os Dir) as [err|listing]; [discriminate|].
  destruct (load_loop os yaml Dir listing ∅ _) as [log' o] eqn:E.
  cbn [snd]. destruct o as [[err|accounts]|msg]; cbn [finish]; try discriminate.
  intros [= <-]. exists listing. split; [reflexivity|].
  intros ad Had. cbv zeta.
  apply in_map_iff in Had as ([k' ad'] & <- & Hk).
  apply list_elem_of_In, elem_of_map_to_list in Hk. cbn [snd] in *.
  destruct (load_loop_collects os yaml Dir listing [] ∅ _ _ _
              (collected_empty os yaml Dir) E) as [H1 _].
  destruct (H1 _ _ Hk) as (Ha & Hu & Hg & Hr & Hp & _).
  rewrite (parsed_key_string _ _ Ha). auto.
Qed.

Lemma Load_collects_witness :
  let os := demo_os ["prod-1/user/bob.yaml"; "readme.txt"; "prod-1/role/ci.yaml";
                     "prod-1/user/eng/eve.yaml"] readable in
  exists ad listing,
    snd (Load os demo_yaml "root") = Returns ([ad], None) /\
    walk os "root" = inr listing /\
    map u_Name (Users ad) = ["bob"; "eve"] /\
    forall ad0, In ad0 [ad] ->
      let k := Account_String (ad_Account ad0) in
      Users ad0 = users_of (contributions os demo_yaml "root" k listing) /\
      Groups ad0 = groups_of (contributions os demo_yaml "root" k listing) /\
      Roles ad0 = roles_of (contributions os demo_yaml "root" k listing) /\
      Policies ad0 = policies_of (contributions os demo_yaml "root" k listing).
Proof.
  intros os.
  eassert (H : snd (Load os demo_yaml "root") = Returns ([_], None))
    by (vm_compute; reflexivity).
  destruct (Load_collects os demo_yaml "root" _ H) as (listing & Hw & Hall).
  eexists. exists listing. split; [exact H|]. split; [exact Hw|].
  split; [reflexivity|]. exact Hall.
Defined.

(** X9.  When [Load] succeeds, no two returned accounts have the same
    account string; every returned account is the parse of its account
    string and comes from a matched file of the walk with that account
    component; and every matched file of the walk has its account among
    the returned ones. *)
Theorem Load_accounts (os : OS) (yaml : YamlLib) (Dir : string)
        (accts : list AccountData) :
  snd (Load os yaml Dir) = Returns (accts, None) ->
  exists listing,
    walk os Dir = inr listing /\
    NoDup (map (fun ad => Account_String (ad_Account ad)) accts) /\
    (forall ad, In ad accts ->
       NewAccountFromString (Account_String (ad_Account ad))
       = Returns (ad_Account ad) /\
       exists fp result,
         In fp listing /\ namedMatch pathRegex fp = Some result /\
         at_key result "account" = Account_String (ad_Account ad)) /\
    (forall fp result,
       In fp listing -> namedMatch pathRegex fp = Some result ->
       exists ad, In ad accts /\
                  Account_String (ad_Account ad) = at_key result "account").
Proof.
  rewrite Load_outcome. destruct (walk os Dir) as [err|listing]; [discriminate|].
  destruct (load_loop os yaml Dir listing ∅ _) as [log' o] eqn:E.
  cbn [snd]. destruct o as [[err|accounts]|msg]; cbn [finish]; try discriminate.
  intros [= <-]. exists listing. split; [reflexivity|].
  destruct (load_loop_collects os yaml Dir listing [] ∅ _ _ _
              (collected_empty os yaml Dir) E) as [H1 H2].
  cbn [app] in H1, H2.
  assert (Hkey : forall k ad, accounts !! k = Some ad ->
                              Account_String (ad_Account ad) = k).
  { intros k ad Hk. destruct (H1 _ _ Hk) as (Ha & _).
    exact (parsed_key_string _ _ Ha). }
  split; [|split].
  - rewrite map_map.
    rewrite (map_ext_in _ fst).
    + exact (NoDup_fst_map_to_list accounts).
    + intros [k ad] Hin. cbn [fst snd].
      apply Hkey. apply elem_of_map_to_list, list_elem_of_In. exact Hin.
  - intros ad Had. apply in_map_iff in Had as ([k ad'] & <- & Hk).
    apply list_elem_of_In, elem_of_map_to_list in Hk. cbn [snd].
    destruct (H1 _ _ Hk) as (Ha & _ & _ & _ & _ & fp & result & Hin & Hm & Hacc).
    rewrite (Hkey _ _ Hk). split; [exact Ha|]. exists fp, result. auto.
  - intros fp result Hin Hm.
    destruct (accounts !! at_key result "account") as [ad|] eqn:Hk.
    + exists ad. split; [|exact (Hkey _ _ Hk)].
      apply in_map_iff. exists (at_key result "account", ad). split; [reflexivity|].
      apply list_elem_of_In, elem_of_map_to_list. exact Hk.
    + exfalso. exact (H2 _ Hk fp result Hin Hm eq_refl).
Qed.

Lemma Load_accounts_witness :
  let os := demo_os ["prod-1/user/bob.yaml"; "readme.txt"; "prod-1/role/ci.yaml";
                     "prod-1/user/eng/eve.yaml"] readable in
  exists ad listing,
    snd (Load os demo_yaml "root") = Returns ([ad], None) /\
    ad_Account ad = {| Id := "1"; Alias := "prod" |} /\
    walk os "root" = inr listing /\
    NoDup (map (fun ad => Account_String (ad_Account ad)) [ad]) /\
    (forall fp result,
       In fp listing -> namedMatch pathRegex fp = Some result ->
       exists ad0, In ad0 [ad] /\
                   Account_String (ad_Account ad0) = at_key result "account").
Proof.
  intros os.
  eassert (H : snd (Load os demo_yaml "root") = Returns ([_], None))
    by (vm_compute; reflexivity).
  destruct (Load_accounts os demo_yaml "root" _ H) as (listing & Hw & Hnd & _ & Hall).
  eexists. exists listing. split; [exact H|]. split; [reflexivity|].
  split; [exact Hw|]. split; [exact Hnd|]. exact Hall.
Defined.

(** ** How [Load] fails, and what it logs *)

Lemma parse_panic (k msg : string) :
  NewAccountFromString k = Panics msg ->
  ~ account_grammar k /\ msg = "Can't create account name from " +:+ k.
Proof.
  intros H. split.
  - intros G. destruct (account_parse_total k G) as [a Ha]. congruence.
  - rewrite NewAccountFromString_search in H. unfold cant_create in H.
    destruct (search k accountReg k); congruence.
Qed.

Section Failing.
Variable os : OS.
Variable yaml : YamlLib.
Variable Dir : string.

Lemma load_entity_outcome fp result k accounts :
  namedMatch pathRegex fp = Some result ->
  match load_entity os yaml Dir fp k (at_key result "entity")
                    (at_key result "path") (at_key result "name") accounts with
  | Returns (inl err) => load_error os yaml Dir fp = Some err
  | Returns (inr _) => True
  | Panics _ => False
  end.
Proof.
  intros Hm. pose proof (matched_entity_kind _ _ Hm) as Ke.
  unfold load_entity, load_error. rewrite Hm. cbv zeta.
  destruct Ke as [E | [E | [E | E]]]; rewrite E;
    cbn [String.eqb Ascii.eqb Bool.eqb];
    match goal with
    | |- context [unmarshalYamlFile os Dir ?d fp] =>
        destruct (unmarshalYamlFile os Dir d fp); auto
    end.
Qed.

Lemma load_matched_outcome fp result accounts :
  namedMatch pathRegex fp = Some result ->
  match load_matched os yaml Dir fp result accounts with
  | Returns (inl err) => load_error os yaml Dir fp = Some err
  | Returns (inr _) => True
  | Panics msg =>
      ~ account_grammar (at_key result "account") /\
      msg = "Can't create account name from " +:+ at_key result "account"
  end.
Proof.
  intros Hm. unfold load_matched, accounts_map in *.
  pose proof (fun acc0 =>
    load_entity_outcome fp result (at_key result "account") acc0 Hm) as He.
  destruct (accounts !! at_key result "account") as [ad|]; cbn [obind].
  - specialize (He accounts).
    destruct (load_entity _ _ _ _ _ _ _ _ _) as [[err|acc]|msg]; tauto.
  - unfold NewAccountData.
    destruct (NewAccountFromString (at_key result "account")) as [a|msg] eqn:Ha;
      cbn [obind].
    + specialize (He (<[at_key result "account" :=
                        {| ad_Account := a; Users := []; Groups := [];
                           Roles := []; Policies := [] |}]> accounts)).
      destruct (load_entity _ _ _ _ _ _ _ _ _) as [[err|acc]|msg]; tauto.
    + exact (parse_panic _ _ Ha).
Qed.

Lemma load_loop_failure files : forall accounts log,
  match snd (load_loop os yaml Dir files accounts log) with
  | Returns (inl err) =>
      exists fp, In fp files /\ load_error os yaml Dir fp = Some err
  | Returns (inr _) => True
  | Panics msg =>
      exists fp result,
        In fp files /\ namedMatch pathRegex fp = Some result /\
        ~ account_grammar (at_key result "account") /\
        msg = "Can't create account name from " +:+ at_key result "account"
  end.
Proof.
  induction files as [|fp rest IH]; intros accounts log; cbn [load_loop].
  - exact I.
  - assert (Hrest : forall acc l,
      match snd (load_loop os yaml Dir rest acc l) with
      | Returns (inl err) =>
          exists f, In f (fp :: rest) /\ load_error os yaml Dir f = Some err
      | Returns (inr _) => True
      | Panics msg =>
          exists f result,
            In f (fp :: rest) /\ namedMatch pathRegex f = Some result /\
            ~ account_grammar (at_key result "account") /\
            msg = "Can't create account name from " +:+ at_key result "account"
      end).
    { intros acc l. specialize (IH acc l).
      destruct (snd (load_loop os yaml Dir rest acc l)) as [[err|a]|msg]; auto.
      - destruct IH as (f & Hin & He). exists f. split; [right|]; assumption.
      - destruct IH as (f & res & Hin & He). exists f, res.
        split; [right|]; assumption. }
    destruct (namedMatch pathRegex fp) as [result|] eqn:Hm; [|apply Hrest].
    pose proof (load_matched_outcome fp result accounts Hm) as Ho.
    destruct (load_matched os yaml Dir fp result accounts) as [[err|acc]|msg];
      cbn [snd].
    + exists fp. split; [left; reflexivity|exact Ho].
    + apply Hrest.
    + exists fp, result. split; [left; reflexivity|]. split; [exact Hm|exact Ho].
Qed.

Lemma load_loop_cons fp rest accounts log :
  load_loop os yaml Dir (fp :: rest) accounts log =
  match namedMatch pathRegex fp with
  | Some result =>
      match load_matched os yaml Dir fp result accounts with
      | Returns (inr accounts') =>
          load_loop os yaml Dir rest accounts' (log ++ [log_line fp])
      | Returns (inl err) => ((log ++ [log_line fp])%list, Returns (inl err))
      | Panics msg => ((log ++ [log_line fp])%list, Panics msg)
      end
  | None => load_loop os yaml Dir rest accounts (log ++ [log_line fp])
  end.
Proof.
  cbn [load_loop]. unfold log_line.
  destruct (namedMatch pathRegex fp); reflexivity.
Qed.

Lemma load_loop_lines files : forall accounts log,
  match snd (load_loop os yaml Dir files accounts log) with
  | Returns (inr _) =>
      fst (load_loop os yaml Dir files accounts log)
      = (log ++ map log_line files)%list
  | _ =>
      exists pre fp post,
        files = (pre ++ fp :: post)%list /\
        is_Some (namedMatch pathRegex fp) /\
        fst (load_loop os yaml Dir files accounts log)
        = (log ++ map log_line (pre ++ [fp]))%list
  end.
Proof.
  induction files as [|fp rest IH]; intros accounts log.
  - cbn. rewrite List.app_nil_r. reflexivity.
  - rewrite load_loop_cons.
    assert (Hrest : forall acc,
      match snd (load_loop os yaml Dir rest acc (log ++ [log_line fp])) with
      | Returns (inr _) =>
          fst (load_loop os yaml Dir rest acc (log ++ [log_line fp]))
          = (log ++ map log_line (fp :: rest))%list
      | _ =>
          exists pre f post,
            fp :: rest = (pre ++ f :: post)%list /\
            is_Some (namedMatch pathRegex f) /\
            fst (load_loop os yaml Dir rest acc (log ++ [log_line fp]))
            = (log ++ map log_line (pre ++ [f]))%list
      end).
    { intros acc. specialize (IH acc (log ++ [log_line fp])%list).
      destruct (snd (load_loop os yaml Dir rest acc (log ++ [log_line fp])))
        as [[err|a]|msg].
      - destruct IH as (pre & f & post & -> & Hf & ->).
        exists (fp :: pre), f, post. rewrite <- List.app_assoc. auto.
      - rewrite IH, <- List.app_assoc. reflexivity.
      - destruct IH as (pre & f & post & -> & Hf & ->).
        exists (fp :: pre), f, post. rewrite <- List.app_assoc. auto. }
    destruct (namedMatch pathRegex fp) as [result|] eqn:Hm; [|apply Hrest].
    destruct (load_matched os yaml Dir fp result accounts) as [[err|acc]|msg];
      cbn [snd fst].
    + exists [], fp, rest. cbn. rewrite Hm. eauto.
    + apply Hrest.
    + exists [], fp, rest. cbn. rewrite Hm. eauto.
Qed.
End Failing.

(** X10.  How [Load] can fail.  When it returns an error, the list of
    accounts is nil and the error is the one of the directory walk or the
    error of reading or decoding one matched file of the walk.  When it
    panics, the message is ["Can't create account name from "] followed by
    the account component of a matched file of the walk that is no account
    string; the panic ["Unexpected entity"] of the switch never comes
    out. *)
Theorem Load_failures (os : OS) (yaml : YamlLib) (Dir : string) :
  (forall accts err,
      snd (Load os yaml Dir) = Returns (accts, Some err) ->
      accts = [] /\
      (walk os Dir = inl err \/
       exists listing fp,
         walk os Dir = inr listing /\ In fp listing /\
         load_error os yaml Dir fp = Some err)) /\
  (forall msg,
      snd (Load os yaml Dir) = Panics msg ->
      exists listing fp result,
        walk os Dir = inr listing /\ In fp listing /\
        namedMatch pathRegex fp = Some result /\
        ~ account_grammar (at_key result "account") /\
        msg = "Can't create account name from " +:+ at_key result "account").
Proof.
  rewrite Load_outcome. destruct (walk os Dir) as [e|listing].
  - split; [|discriminate]. intros accts err [= <- <-]. auto.
  - pose proof (load_loop_failure os yaml Dir listing ∅
                  ["Loading YAML IAM data from " +:+ Dir]) as H.
    destruct (snd (load_loop os yaml Dir listing ∅ _)) as [[err|acc]|msg];
      cbn [finish]; (split; [intros accts e' | intros msg']); try discriminate.
    + intros [= <- <-]. split; [reflexivity|]. right.
      destruct H as (fp & Hin & He). exists listing, fp. auto.
    + intros [= <-]. destruct H as (fp & result & Hin & Hm & Hg & Hmsg).
      exists listing, fp, result. auto.
Qed.

(** X11.  What [Load] logs over a directory whose walk gives [listing].
    When it succeeds, the log is the header line followed by one line per
    file of the walk, in order: ["Loading "] and the path for a matched
    file, ["Skipping "] and the path for any other.  When it does not
    succeed, the log is the same up to the line of a matched file of the
    walk, the last one logged. *)
Theorem Load_log_lines (os : OS) (yaml : YamlLib) (Dir : string)
        (listing : list string) :
  walk os Dir = inr listing ->
  (forall accts,
      snd (Load os yaml Dir) = Returns (accts, None) ->
      fst (Load os yaml Dir)
      = ("Loading YAML IAM data from " +:+ Dir) :: map log_line listing) /\
  ((forall accts, snd (Load os yaml Dir) <> Returns (accts, None)) ->
   exists pre fp post,
     listing = (pre ++ fp :: post)%list /\
     is_Some (namedMatch pathRegex fp) /\
     fst (Load os yaml Dir)
     = ("Loading YAML IAM data from " +:+ Dir) :: map log_line (pre ++ [fp])).
Proof.
  intros Hw. rewrite Load_outcome, Load_log, Hw.
  pose proof (load_loop_lines os yaml Dir listing ∅
                ["Loading YAML IAM data from " +:+ Dir]) as H.
  destruct (snd (load_loop os yaml Dir listing ∅ _)) as [[err|acc]|msg];
    cbn [finish]; split; try (intros accts; discriminate); try exact (fun _ => H).
  - intros accts _. exact H.
  - intros Hno. exfalso. exact (Hno _ eq_refl).
Qed.

Lemma Load_log_lines_witness :
  let os := demo_os ["prod-1/user/bob.yaml"; "readme.txt"] readable in
  walk os "root" = inr ["prod-1/user/bob.yaml"; "readme.txt"] /\
  fst (Load os demo_yaml "root")
  = ["Loading YAML IAM data from root"; "Loading prod-1/user/bob.yaml";
     "Skipping readme.txt"].
Proof.
  intros os. split; [reflexivity|].
  eassert (H : snd (Load os demo_yaml "root") = Returns (_, None))
    by (vm_compute; reflexivity).
  rewrite (proj1 (Load_log_lines os demo_yaml "root" _ eq_refl) _ H).
  vm_compute. reflexivity.
Defined.

(** ** What [Dump] leaves and what it writes *)

Section Dumping.
Variable os : OS.
Variable yaml : YamlLib.
Variable Dir : string.

Lemma write_all_elsewhere a rs fs fs' err p :
  write_all os yaml Dir a rs fs = (fs', err) ->
  (forall r, In r rs -> p <> Join os Dir (renderPath a r)) ->
  fs' !! p = fs !! p.
Proof.
  intros W Hp. destruct (fs' !! p) as [c|] eqn:E.
  - destruct (write_all_lookup os yaml Dir a rs fs fs' err p c W E)
      as [H | (r & Hin & Hr & _)]; [symmetry; exact H|].
    exfalso. exact (Hp r Hin Hr).
  - destruct (fs !! p) as [c|] eqn:E'; [|reflexivity].
    destruct (write_all_keeps os yaml Dir a rs fs fs' err p W) as [c' Hc'].
    + rewrite E'. eauto.
    + congruence.
Qed.

Lemma writeResource_done a r fs fs' :
  writeResource os yaml Dir a r fs = (fs', None) ->
  exists c, Marshal yaml r = inr c /\
            fs' !! Join os Dir (renderPath a r) = Some c.
Proof.
  unfold writeResource, writeYamlFile, MkdirAll, WriteFile.
  destruct (Marshal yaml r) as [e|b]; [discriminate|].
  destruct (fails os fs (CallMkdirAll _)); [discriminate|].
  destruct (fails os fs (CallWriteFile _)); [discriminate|].
  intros [= <-]. exists b. split; [reflexivity|]. apply lookup_insert_eq.
Qed.

Lemma write_all_done a rs : forall fs fs',
  write_all os yaml Dir a rs fs = (fs', None) ->
  forall r, In r rs ->
  exists c r', fs' !! Join os Dir (renderPath a r) = Some c /\
               In r' rs /\
               Join os Dir (renderPath a r') = Join os Dir (renderPath a r) /\
               Marshal yaml r' = inr c.
Proof.
  induction rs as [|r0 rs IH]; intros fs fs' W r Hin; [destruct Hin|].
  cbn [write_all] in W.
  destruct (writeResource os yaml Dir a r0 fs) as [fs1 [e|]] eqn:E; [discriminate|].
  destruct Hin as [<- | Hin].
  - destruct (writeResource_done _ _ _ _ E) as (c & Hc & Hl).
    destruct (write_all_keeps os yaml Dir a rs fs1 fs' None
                (Join os Dir (renderPath a r0)) W) as [c' Hc']; [eauto|].
    destruct (write_all_lookup os yaml Dir a rs fs1 fs' None _ c' W Hc')
      as [H | (r' & Hin' & Hr' & Hm')].
    + exists c', r0. rewrite Hl in H. injection H as <-.
      split; [exact Hc'|]. split; [left; reflexivity|]. auto.
    + exists c', r'. split; [exact Hc'|]. split; [right; exact Hin'|]. auto.
  - destruct (IH _ _ W r Hin) as (c & r' & Hc & Hin' & Hr' & Hm').
    exists c, r'. split; [exact Hc|]. split; [right; exact Hin'|]. auto.
Qed.
End Dumping.

(** X12.  Without [canDelete], [Dump] removes nothing: every file that
    was in the tree is still there afterwards, and a file at a path that is
    not the rendered path of a resource of [accountData] keeps its
    contents, whether [Dump] goes through or stops at an error.  Files of
    resources that no longer exist stay. *)
Theorem Dump_without_delete (os : OS) (yaml : YamlLib) (Dir : string)
        (accountData : AccountData) (fs : files) :
  (forall p, is_Some (fs !! p) ->
             is_Some ((Dump os yaml Dir accountData false fs).1 !! p)) /\
  (forall p,
      (forall r, In r (resources accountData) ->
                 p <> Join os Dir (renderPath (ad_Account accountData) r)) ->
      (Dump os yaml Dir accountData false fs).1 !! p = fs !! p).
Proof.
  unfold Dump.
  destruct (write_all os yaml Dir (ad_Account accountData)
              (resources accountData) fs) as [fs' err] eqn:W.
  cbn [fst]. split.
  - intros p. exact (write_all_keeps _ _ _ _ _ _ _ _ _ W).
  - intros p. exact (write_all_elsewhere _ _ _ _ _ _ _ _ _ W).
Qed.

(** X13.  When [Dump] returns no error, every resource of [accountData]
    has its file: the tree holds, at the rendered path of the resource, the
    document marshalled from a resource of [accountData] rendered at that
    very path (the resource itself, or a later one written over it). *)
Theorem Dump_writes_all (os : OS) (yaml : YamlLib) (Dir : string)
        (accountData : AccountData) (canDelete : bool) (fs : files) :
  (Dump os yaml Dir accountData canDelete fs).2 = None ->
  forall r, In r (resources accountData) ->
  exists c r',
    (Dump os yaml Dir accountData canDelete fs).1
      !! Join os Dir (renderPath (ad_Account accountData) r) = Some c /\
    In r' (resources accountData) /\
    Join os Dir (renderPath (ad_Account accountData) r')
    = Join os Dir (renderPath (ad_Account accountData) r) /\
    Marshal yaml r' = inr c.
Proof.
  unfold Dump.
  destruct (if canDelete then RemoveAll os _ fs else (fs, None)) as [fs1 [e|]];
    [discriminate|].
  destruct (write_all os yaml Dir (ad_Account accountData)
              (resources accountData) fs1) as [fs' err] eqn:W.
  cbn [fst snd]. intros ->. exact (write_all_done _ _ _ _ _ _ _ W).
Qed.

Lemma Dump_writes_all_witness :
  (Dump (demo_os [] readable) demo_yaml "root" account_999 true stray_tree).2 = None /\
  exists c r',
    (Dump (demo_os [] readable) demo_yaml "root" account_999 true stray_tree).1
      !! "root/999/role/svc/deploy.yaml" = Some c /\
    In r' (resources account_999) /\
    Join (demo_os [] readable) "root" (renderPath (ad_Account account_999) r')
    = "root/999/role/svc/deploy.yaml" /\
    Marshal demo_yaml r' = inr c.
Proof.
  assert (H : (Dump (demo_os [] readable) demo_yaml "root" account_999 true
                 stray_tree).2 = None) by (vm_compute; reflexivity).
  split; [exact H|].
  exact (Dump_writes_all (demo_os [] readable) demo_yaml "root" account_999 true
           stray_tree H deploy_role (or_introl eq_refl)).
Defined.

(** ** Where [Dump] stops *)

Section DumpErrors.
Variable os : OS.
Variable yaml : YamlLib.
Variable Dir : string.


End DumpErrors.



(** ** [Dump] twice *)

Section DumpTwice.
Variable os : OS.
Variable yaml : YamlLib.
Variable Dir : string.

Lemma write_all_last a rs : forall fs fs',
  write_all os yaml Dir a rs fs = (fs', None) ->
  forall p, fs' !! p = last_write os yaml Dir a rs p (fs !! p).
Proof.
  induction rs as [|r rs IH]; intros fs fs'; cbn [write_all last_write].
  - intros [= <-] p. reflexivity.
  - destruct (writeResource os yaml Dir a r fs) as [fs1 [e|]] eqn:E; [discriminate|].
    intros W p. rewrite (IH _ _ W p). f_equal.
    revert E. unfold writeResource, writeYamlFile, MkdirAll, WriteFile.
    destruct (Marshal yaml r) as [e|b]; [discriminate|].
    destruct (fails os fs (CallMkdirAll _)); [discriminate|].
    destruct (fails os fs (CallWriteFile _)); [discriminate|].
    intros [= <-].
    destruct (String.eqb_spec (Join os Dir (renderPath a r)) p) as [<- | Hne].
    + apply lookup_insert_eq.
    + apply lookup_insert_ne. exact Hne.
Qed.

(** What was there before matters only where nothing is written. *)
Lemma last_write_over a rs p : forall x y,
  last_write os yaml Dir a rs p x = last_write os yaml Dir a rs p y \/
  (last_write os yaml Dir a rs p x = x /\ last_write os yaml Dir a rs p y = y /\
   forall r, In r rs -> Join os Dir (renderPath a r) <> p \/
                        exists e, Marshal yaml r = inl e).
Proof.
  induction rs as [|r rs IH]; intros x y; cbn [last_write].
  - right. split; [reflexivity|]. split; [reflexivity|]. intros r [].
  - destruct (String.eqb_spec (Join os Dir (renderPath a r)) p) as [E | Hne].
    + destruct (Marshal yaml r) as [e|c] eqn:M.
      * destruct (IH x y) as [H | (Hx & Hy & Hr)]; [left; exact H|].
        right. split; [exact Hx|]. split; [exact Hy|].
        intros r0 [<- | Hin]; [right; eauto | apply Hr, Hin].
      * left. destruct (IH (Some c) (Some c)) as [H | (Hx & _)]; [exact H|].
        reflexivity.
    + destruct (IH x y) as [H | (Hx & Hy & Hr)]; [left; exact H|].
      right. split; [exact Hx|]. split; [exact Hy|].
      intros r0 [<- | Hin]; [left; exact Hne | apply Hr, Hin].
Qed.

Lemma last_write_twice a rs p x :
  last_write os yaml Dir a rs p (last_write os yaml Dir a rs p x)
  = last_write os yaml Dir a rs p x.
Proof.
  destruct (last_write_over a rs p (last_write os yaml Dir a rs p x) x)
    as [H | (H & _)]; exact H.
Qed.
End DumpTwice.

(** X18.  Dumping an account twice is dumping it once: when [Dump] goes
    through on a tree and goes through again, with the same [canDelete],
    on the tree it left, the second run leaves that tree as it is, file by
    file, whatever the first tree was and also when several resources of
    the account share a file. *)
Theorem Dump_twice (os : OS) (yaml : YamlLib) (Dir : string)
        (accountData : AccountData) (canDelete : bool) (fs : files) :
  let once := (Dump os yaml Dir accountData canDelete fs).1 in
  (Dump os yaml Dir accountData canDelete fs).2 = None ->
  (Dump os yaml Dir accountData canDelete once).2 = None ->
  (Dump os yaml Dir accountData canDelete once).1 = once.
Proof.
  intros once. subst once. unfold Dump, RemoveAll.
  destruct canDelete.
  - destruct (fails os fs (CallRemoveAll _)) as [e|]; [discriminate|].
    set (d := Join os Dir (Account_String (ad_Account accountData))).
    set (keep := fun kv : string * string => within os d kv.1 = false).
    destruct (write_all os yaml Dir (ad_Account accountData)
                (resources accountData) (filter keep fs)) as [fs1 e1] eqn:W1.
    cbn [fst snd]. intros ->.
    destruct (fails os fs1 (CallRemoveAll _)) as [e|]; [discriminate|].
    destruct (write_all os yaml Dir (ad_Account accountData)
                (resources accountData) (filter keep fs1)) as [fs2 e2] eqn:W2.
    cbn [fst snd]. intros ->.
    apply map_eq. intros p.
    pose proof (write_all_last _ _ _ _ _ _ _ W2 p) as L2.
    pose proof (write_all_last _ _ _ _ _ _ _ W1 p) as L1.
    etransitivity; [exact L2|]. symmetry. etransitivity; [exact L1|]. symmetry.
    destruct (last_write_over os yaml Dir (ad_Account accountData)
                (resources accountData) p (filter keep fs1 !! p) (filter keep fs !! p))
      as [H | (Hx & Hy & Hr)]; [exact H|].
    etransitivity; [exact Hx|]. symmetry. etransitivity; [exact Hy|]. symmetry.
    destruct (within os d p) eqn:Hw.
    + transitivity (@None string); [|symmetry];
        apply map_lookup_filter_None; right; intros x _; unfold keep; cbn; congruence.
    + assert (E : fs1 !! p = filter keep fs !! p).
      { etransitivity; [exact L1|exact Hy]. }
      destruct (fs1 !! p) as [c|] eqn:E1.
      * etransitivity; [|exact E]. apply map_lookup_filter_Some. split; [exact E1|exact Hw].
      * etransitivity; [|exact E]. apply map_lookup_filter_None. left. exact E1.
  - destruct (write_all os yaml Dir (ad_Account accountData)
                (resources accountData) fs) as [fs1 e1] eqn:W1.
    cbn [fst snd]. intros ->.
    destruct (write_all os yaml Dir (ad_Account accountData)
                (resources accountData) fs1) as [fs2 e2] eqn:W2.
    cbn [fst snd]. intros ->.
    apply map_eq. intros p.
    pose proof (write_all_last _ _ _ _ _ _ _ W2 p) as L2.
    pose proof (write_all_last _ _ _ _ _ _ _ W1 p) as L1.
    etransitivity; [exact L2|]. symmetry. etransitivity; [exact L1|]. symmetry.
    transitivity (last_write os yaml Dir (ad_Account accountData)
                    (resources accountData) p
                    (last_write os yaml Dir (ad_Account accountData)
                       (resources accountData) p (fs !! p))).
    + f_equal. exact L1.
    + apply last_write_twice.
Qed.

Lemma Dump_twice_witness :
  let os := demo_os [] readable in
  let once := (Dump os demo_yaml "root" account_999 true stray_tree).1 in
  (Dump os demo_yaml "root" account_999 true stray_tree).2 = None /\
  once <> stray_tree /\
  (Dump os demo_yaml "root" account_999 true once).1 = once.
Proof.
  intros os once.
  assert (H : (Dump os demo_yaml "root" account_999 true stray_tree).2 = None)
    by (vm_compute; reflexivity).
  split; [exact H|]. split.
  - intros E. apply (f_equal (fun m : files => m !! "root/999/stray.txt")) in E.
    vm_compute in E. discriminate E.
  - apply (Dump_twice os demo_yaml "root" account_999 true stray_tree H).
    vm_compute. reflexivity.
Defined.

(** ** The keys of a resource file *)

Lemma strings_value_empty (l : list string) :
  is_empty (strings_value l) = match l with [] => true | _ => false end.
Proof. destruct l; reflexivity. Qed.

Lemma inline_value_empty (l : list InlinePolicy) :
  is_empty (inline_value l) = match l with [] => true | _ => false end.
Proof. destruct l; reflexivity. Qed.

(** X14.  The top-level keys of the document written for a resource, in
    order.  A user has [Groups], [InlinePolicies] and [Policies], each only
    when the list is not empty; a group has [InlinePolicies] and
    [Policies], each only when not empty; a role always has
    [AssumeRolePolicyDocument], then [InlinePolicies] and [Policies] when
    not empty; a policy has [Policy] alone. *)
Theorem file_body_keys (r : AwsResource) :
  map fst (file_body r) =
  match r with
  | RUser u =>
      when_nonempty "Groups" (u_Groups u) ++
      when_nonempty "InlinePolicies" (u_InlinePolicies u) ++
      when_nonempty "Policies" (u_Policies u)
  | RGroup g =>
      when_nonempty "InlinePolicies" (g_InlinePolicies g) ++
      when_nonempty "Policies" (g_Policies g)
  | RRole x =>
      ["AssumeRolePolicyDocument"] ++
      when_nonempty "InlinePolicies" (r_InlinePolicies x) ++
      when_nonempty "Policies" (r_Policies x)
  | RPolicy p => ["Policy"]
  end%list.
Proof.
  destruct r as [u|g|x|p]; unfold file_body; cbn [struct_fields encode_struct andb];
    rewrite ?strings_value_empty, ?inline_value_empty.
  - destruct (u_Groups u), (u_InlinePolicies u), (u_Policies u); reflexivity.
  - destruct (g_InlinePolicies g), (g_Policies g); reflexivity.
  - destruct (r_InlinePolicies x), (r_Policies x); reflexivity.
  - reflexivity.
Qed.

(** ** From [Dump] to [Load] *)

Lemma rendered_contribution (os : OS) (yaml : YamlLib) (Dir : string)
      (a : Account) (r : AwsResource) (data : string) :
  account_safe a -> path_safe r ->
  ReadFile os (Join os Dir (renderPath a r)) = inr data ->
  decodes_back yaml r data ->
  contribution os yaml Dir (renderPath a r) = Some (Account_String a, r).
Proof.
  intros (H1 & H2) (H3 & H4 & H5 & H6 & H7) Hread Hdec.
  destruct (rendered_parses (Account_String a) (Type_ r) (PathString r)
              (NameString r) H1 H2 (Type_is_kind r) H3 H4 H5 H6 H7)
    as (result & Hm & Ka & Ke & Kp & Kn).
  fold (renderPath a r) in Hm.
  unfold contribution. rewrite Hm. cbv zeta. rewrite Ka, Ke, Kp, Kn.
  unfold unmarshalYamlFile. rewrite Hread.
  destruct r as [u|g|x|p]; cbn [Type_ String.eqb Ascii.eqb Bool.eqb];
    destruct Hdec as (x0 & -> & Hx); cbn [NameString PathString];
    rewrite Hx; reflexivity.
Qed.

(** X15.  What [Dump] wrote, the loader reads back.  Let [Dump] go
    through on an account whose string is non-empty and free of newlines
    and whose resources have names and paths the path pattern reads back
    (path ending in a slash, without newline and without a segment that
    starts with a type key; name non-empty, without slash or newline); let
    the files be read as [Dump] left them, and let the YAML library decode
    what it emitted for a resource into the fields of that resource.  Then
    for every resource of the account, the file at its path is taken by the
    loop of [Load] as a resource of the dumped account, under the account
    string of that account: the very resource marshalled into that file. *)
Theorem dumped_file_loads_back (os : OS) (yaml : YamlLib) (Dir : string)
        (accountData : AccountData) (canDelete : bool) (fs : files) :
  let a := ad_Account accountData in
  let fs' := (Dump os yaml Dir accountData canDelete fs).1 in
  (Dump os yaml Dir accountData canDelete fs).2 = None ->
  (forall p c, fs' !! p = Some c -> ReadFile os p = inr c) ->
  (forall r c, In r (resources accountData) ->
               Marshal yaml r = inr c -> decodes_back yaml r c) ->
  account_safe a ->
  (forall r, In r (resources accountData) -> path_safe r) ->
  forall r, In r (resources accountData) ->
  exists r',
    In r' (resources accountData) /\
    Join os Dir (renderPath a r') = Join os Dir (renderPath a r) /\
    contribution os yaml Dir (renderPath a r') = Some (Account_String a, r').
Proof.
  intros a fs' Hok Hread Hyaml Ha Hsafe r Hin.
  assert (W : exists c r',
             fs' !! Join os Dir (renderPath a r) = Some c /\
             In r' (resources accountData) /\
             Join os Dir (renderPath a r') = Join os Dir (renderPath a r) /\
             Marshal yaml r' = inr c).
  { subst fs' a. revert Hok. unfold Dump.
    destruct (if canDelete then RemoveAll os _ fs else (fs, None)) as [fs1 [e|]];
      [discriminate|].
    destruct (write_all os yaml Dir (ad_Account accountData)
                (resources accountData) fs1) as [fs2 err] eqn:W.
    cbn [fst snd]. intros ->. exact (write_all_done _ _ _ _ _ _ _ W r Hin). }
  destruct W as (c & r' & Hc & Hin' & Hj & Hm).
  exists r'. split; [exact Hin'|]. split; [exact Hj|].
  apply rendered_contribution with (data := c); auto.
  rewrite Hj. apply Hread. exact Hc.
Qed.

Lemma reads_dumped_999 (listing : list string) (p c : string) :
  (Dump (demo_os listing (reading dumped_999)) deploy_yaml "root" account_999
        true stray_tree).1 !! p = Some c ->
  ReadFile (demo_os listing (reading dumped_999)) p = inr c.
Proof.
  change (dumped_999 !! p = Some c -> reading dumped_999 p = inr c).
  unfold reading. intros ->. reflexivity.
Qed.

Lemma decodes_deploy (r : AwsResource) (c : string) :
  In r (resources account_999) ->
  Marshal deploy_yaml r = inr c -> decodes_back deploy_yaml r c.
Proof.
  intros [<- | []]. vm_compute. intros [= <-]. eexists. split; reflexivity.
Qed.

Lemma safe_deploy (r : AwsResource) :
  In r (resources account_999) -> path_safe r.
Proof. intros [<- | []]. repeat split. Qed.

Lemma dumped_file_loads_back_witness :
  let os := demo_os ["999/role/svc/deploy.yaml"; "other/keep.txt"]
                    (reading dumped_999) in
  (Dump os deploy_yaml "root" account_999 true stray_tree).2 = None /\
  exists r',
    In r' (resources account_999) /\
    Join os "root" (renderPath (ad_Account account_999) r')
    = "root/999/role/svc/deploy.yaml" /\
    contribution os deploy_yaml "root" (renderPath (ad_Account account_999) r')
    = Some ("999", r').
Proof.
  intros os.
  assert (H : (Dump os deploy_yaml "root" account_999 true stray_tree).2 = None)
    by (vm_compute; reflexivity).
  split; [exact H|].
  refine (dumped_file_loads_back os deploy_yaml "root" account_999 true stray_tree
            H (reads_dumped_999 _) decodes_deploy _ safe_deploy
            deploy_role (or_introl eq_refl)).
  split; reflexivity.
Defined.

Lemma word_or_hyphen_is_dot (s : string) :
  str_all is_word_or_hyphen s = true -> str_all is_dot s = true.
Proof.
  induction s as [|c s IH]; [reflexivity|]. cbn [str_all].
  intros H. apply andb_prop in H as [Hc Hs]. rewrite (IH Hs), andb_true_r.
  unfold is_dot. destruct (Ascii.eqb_spec c "010") as [-> |]; [discriminate Hc|reflexivity].
Qed.

Lemma parsed_account_safe (a : Account) :
  NewAccountFromString (Account_String a) = Returns a ->
  account_grammar (Account_String a) /\ account_safe a.
Proof.
  intros H. apply account_parse_shape in H.
  assert (G : account_grammar (Account_String a)).
  { destruct H as [(_ & _ & Hn & Hd) | (E & Han & Ha & Hin & Hi)].
    - left. auto.
    - right. exists (Alias a), (Id a). auto. }
  split; [exact G|]. split.
  - destruct G as [[Hn _] | (al & d & -> & Hn & _)]; [exact Hn|].
    destruct al; [discriminate Hn|reflexivity].
  - apply word_or_hyphen_is_dot, account_grammar_chars, G.
Qed.

Lemma contribution_no_error (os : OS) (yaml : YamlLib) (Dir fp : string) kr :
  contribution os yaml Dir fp = Some kr -> load_error os yaml Dir fp = None.
Proof.
  unfold contribution, load_error.
  destruct (namedMatch pathRegex fp) as [result|]; [|reflexivity].
  cbv zeta. intros H.
  repeat match type of H with
         | (if ?b then _ else _) = _ => destruct b
         | match ?x with inl _ => _ | inr _ => _ end = _ => destruct x
         end; try discriminate; reflexivity.
Qed.

Lemma NoDup_map_injective {A B} (f : A -> B) (l : list A) :
  NoDup (map f l) -> forall x y, In x l -> In y l -> f x = f y -> x = y.
Proof.
  induction l as [|z l IH]; intros N x y Hx Hy E; [destruct Hx|].
  cbn [map] in N. apply NoDup_cons in N as [Hz N].
  rewrite list_elem_of_In in Hz.
  destruct Hx as [<- | Hx], Hy as [<- | Hy]; auto.
  - exfalso. apply Hz. rewrite E. apply in_map, Hy.
  - exfalso. apply Hz. rewrite <- E. apply in_map, Hx.
Qed.

Lemma NoDup_flat_map_disjoint {A B} (g : A -> list B) (l : list A) :
  NoDup l -> (forall x, In x l -> NoDup (g x)) ->
  (forall x y z, In x l -> In y l -> In z (g x) -> In z (g y) -> x = y) ->
  NoDup (flat_map g l).
Proof.
  induction l as [|x l IH]; intros N Hg Hd; cbn [flat_map]; [constructor|].
  apply NoDup_cons in N as [Hx N]. rewrite list_elem_of_In in Hx.
  apply NoDup_app. split; [|split].
  - apply Hg. left. reflexivity.
  - intros z Hz Hz'. rewrite list_elem_of_In in Hz, Hz'.
    apply in_flat_map in Hz' as (y & Hy & Hz').
    apply Hx. rewrite (Hd x y z); auto; [left; reflexivity | right; exact Hy].
  - apply IH; auto.
    + intros y Hy. apply Hg. right. exact Hy.
    + intros y y' z Hy Hy'. apply Hd; right; assumption.
Qed.

Lemma kinds_of_resources (ad : AccountData) :
  users_of (resources ad) = Users ad /\
  groups_of (resources ad) = Groups ad /\
  roles_of (resources ad) = Roles ad /\
  policies_of (resources ad) = Policies ad.
Proof.
  assert (U : forall (T : Type) (f : T -> AwsResource) (h : AwsResource -> list T)
                     (l : list T),
             (forall x, h (f x) = [x]) -> flat_map h (map f l) = l).
  { intros T f h l Hh. induction l as [|x l IH]; [reflexivity|].
    cbn [map flat_map]. rewrite Hh, IH. reflexivity. }
  assert (Z : forall (T S : Type) (f : S -> AwsResource) (h : AwsResource -> list T)
                     (l : list S),
             (forall x, h (f x) = []) -> flat_map h (map f l) = []).
  { intros T S f h l Hh. induction l as [|x l IH]; [reflexivity|].
    cbn [map flat_map]. rewrite Hh, IH. reflexivity. }
  unfold users_of, groups_of, roles_of, policies_of, resources.
  rewrite !flat_map_app.
  repeat split;
    rewrite ?U by reflexivity; rewrite ?Z by reflexivity;
    rewrite ?List.app_nil_r; reflexivity.
Qed.

(** X16.  [Load] after [Dump] gives the account back.  Let [Dump] go
    through on an account that [NewAccountFromString] reads back from its
    string and whose resources have names and paths the path pattern reads
    back and are written to pairwise different files; let the walk list
    each file once, the files of the resources among them and no other
    matched file; let the files be read as [Dump] left them and the YAML
    library decode what it emitted.  Then [Load] succeeds.  If the account
    holds a resource, [Load] returns one account, with the same identity
    and the same Users, Groups, Roles and Policies up to their order; an
    account without any resource is not returned at all. *)
Theorem load_after_dump (os : OS) (yaml : YamlLib) (Dir : string)
        (accountData : AccountData) (canDelete : bool) (fs : files)
        (listing : list string) :
  let a := ad_Account accountData in
  let fs' := (Dump os yaml Dir accountData canDelete fs).1 in
  (Dump os yaml Dir accountData canDelete fs).2 = None ->
  NewAccountFromString (Account_String a) = Returns a ->
  (forall r, In r (resources accountData) -> path_safe r) ->
  NoDup (map (fun r => Join os Dir (renderPath a r)) (resources accountData)) ->
  (forall r c, In r (resources accountData) ->
               Marshal yaml r = inr c -> decodes_back yaml r c) ->
  walk os Dir = inr listing ->
  NoDup listing ->
  (forall r, In r (resources accountData) -> In (renderPath a r) listing) ->
  (forall fp, In fp listing -> is_Some (namedMatch pathRegex fp) ->
              exists r, In r (resources accountData) /\ fp = renderPath a r) ->
  (forall p c, fs' !! p = Some c -> ReadFile os p = inr c) ->
  exists accts,
    snd (Load os yaml Dir) = Returns (accts, None) /\
    match resources accountData with
    | [] => accts = []
    | _ :: _ =>
        exists ad, accts = [ad] /\ ad_Account ad = a /\
                   Permutation (Users ad) (Users accountData) /\
                   Permutation (Groups ad) (Groups accountData) /\
                   Permutation (Roles ad) (Roles accountData) /\
                   Permutation (Policies ad) (Policies accountData)
    end.
Proof.
  intros a fs' Hok Hparse Hsafe Hnd Hyaml Hwalk Hlnd Hall Honly Hread.
  destruct (parsed_account_safe a Hparse) as [Hgram Hasafe].
  set (k := Account_String a) in *.
  (* every file Dump wrote is read back as the resource it was written from *)
  assert (Hc : forall r, In r (resources accountData) ->
                         contribution os yaml Dir (renderPath a r) = Some (k, r)).
  { intros r Hin.
    assert (W : exists c r',
               fs' !! Join os Dir (renderPath a r) = Some c /\
               In r' (resources accountData) /\
               Join os Dir (renderPath a r') = Join os Dir (renderPath a r) /\
               Marshal yaml r' = inr c).
    { subst fs' a. revert Hok. unfold Dump.
      destruct (if canDelete then RemoveAll os _ fs else (fs, None)) as [fs1 [e|]];
        [discriminate|].
      destruct (write_all os yaml Dir (ad_Account accountData)
                  (resources accountData) fs1) as [fs2 err] eqn:W.
      cbn [fst snd]. intros ->. exact (write_all_done _ _ _ _ _ _ _ W r Hin). }
    destruct W as (c & r' & Hl & Hin' & Hj & Hm).
    assert (r' = r) as ->.
    { exact (NoDup_map_injective (fun r => Join os Dir (renderPath a r)) _ Hnd
               r' r Hin' Hin Hj). }
    apply rendered_contribution with (data := c); auto. }
  assert (Hmatched : forall fp result,
             In fp listing -> namedMatch pathRegex fp = Some result ->
             exists r, In r (resources accountData) /\ fp = renderPath a r /\
                       at_key result "account" = k).
  { intros fp result Hin Hm.
    destruct (Honly fp Hin) as (r & Hr & ->); [rewrite Hm; eauto|].
    exists r. split; [exact Hr|]. split; [reflexivity|].
    destruct (contribution_account _ _ _ _ _ _ (Hc r Hr)) as (res' & Hm' & Hk).
    congruence. }
  (* the loop goes through *)
  destruct (load_loop_ok os yaml Dir listing ∅
              ["Loading YAML IAM data from " +:+ Dir]) as (log1 & accounts1 & HL).
  { intros f Hf. destruct (namedMatch pathRegex f) as [result|] eqn:Hm.
    - destruct (Hmatched f result Hf Hm) as (r & Hr & -> & _).
      exact (contribution_no_error _ _ _ _ _ (Hc r Hr)).
    - unfold load_error. rewrite Hm. reflexivity. }
  { intros f Hf result Hm.
    destruct (Hmatched f result Hf Hm) as (r & Hr & -> & ->). exact Hgram. }
  exists (map snd (map_to_list accounts1)).
  split.
  { rewrite Load_outcome, Hwalk, HL. reflexivity. }
  unfold accounts_map in *.
  destruct (load_loop_collects os yaml Dir listing [] ∅ _ _ _
              (collected_empty os yaml Dir) HL) as [H1 H2].
  cbn [app] in H1, H2.
  destruct (resources accountData) as [|r0 rs] eqn:Eres.
  - assert (accounts1 = ∅) as ->.
    { apply map_eq. intros i.
      destruct (accounts1 !! i) as [ad|] eqn:Hi; [|symmetry; apply lookup_empty].
      destruct (H1 _ _ Hi) as (_ & _ & _ & _ & _ & fp & result & Hin & Hm & _).
      destruct (Hmatched fp result Hin Hm) as (r & [] & _). }
    rewrite map_to_list_empty. reflexivity.
  - rewrite <- Eres in *.
    assert (Hin0 : In r0 (resources accountData)) by (rewrite Eres; left; reflexivity).
    destruct (accounts1 !! k) as [ad|] eqn:Hk.
    2:{ exfalso.
        destruct (contribution_account _ _ _ _ _ _ (Hc r0 Hin0)) as (res & Hm & Hacc).
        exact (H2 k Hk _ res (Hall r0 Hin0) Hm Hacc). }
    assert (accounts1 = {[ k := ad ]}) as ->.
    { apply map_eq. intros i. destruct (String.eqb_spec i k) as [-> | Hne].
      - rewrite lookup_singleton_eq. exact Hk.
      - destruct (accounts1 !! i) as [ad'|] eqn:Hi;
          [|symmetry; apply lookup_singleton_ne; congruence].
        destruct (H1 _ _ Hi) as (_ & _ & _ & _ & _ & fp & result & Hin & Hm & Hacc).
        destruct (Hmatched fp result Hin Hm) as (r & _ & _ & Hk'). congruence. }
    rewrite map_to_list_singleton. cbn [map snd].
    exists ad. split; [reflexivity|].
    rewrite lookup_singleton_eq in Hk. clear Hk.
    destruct (H1 k ad (lookup_singleton_eq _ _)) as (Ha & Hu & Hg & Hr & Hp & _).
    split; [congruence|].
    assert (P : Permutation (contributions os yaml Dir k listing)
                            (resources accountData)).
    { apply NoDup_Permutation.
      - unfold contributions. apply NoDup_flat_map_disjoint; [exact Hlnd| |].
        + intros fp _. destruct (contribution os yaml Dir fp) as [[k' r]|];
            [destruct (String.eqb k' k)|];
            try apply NoDup_nil_2; apply NoDup_singleton.
        + assert (Hg' : forall fp z, In fp listing ->
                    In z (match contribution os yaml Dir fp with
                          | Some (k', r) => if String.eqb k' k then [r] else []
                          | None => []
                          end) -> fp = renderPath a z).
          { intros fp z Hfp Hz.
            destruct (contribution os yaml Dir fp) as [[k' r]|] eqn:E; [|destruct Hz].
            destruct (contribution_account _ _ _ _ _ _ E) as (res & Hm & _).
            destruct (Hmatched fp res Hfp Hm) as (r' & Hr' & -> & _).
            rewrite (Hc r' Hr') in E. injection E as <- <-.
            rewrite String.eqb_refl in Hz. destruct Hz as [<- | []]. reflexivity. }
          intros x y z Hx Hy Hzx Hzy.
          rewrite (Hg' x z Hx Hzx), (Hg' y z Hy Hzy). reflexivity.
      - exact (NoDup_fmap_1 _ _ Hnd).
      - intros x. rewrite !list_elem_of_In.
        unfold contributions. rewrite in_flat_map. split.
        + intros (fp & Hfp & Hx).
          destruct (contribution os yaml Dir fp) as [[k' r]|] eqn:E; [|destruct Hx].
          destruct (contribution_account _ _ _ _ _ _ E) as (res & Hm & _).
          destruct (Hmatched fp res Hfp Hm) as (r' & Hr' & -> & _).
          rewrite (Hc r' Hr') in E. injection E as <- <-.
          rewrite String.eqb_refl in Hx. destruct Hx as [<- | []]. exact Hr'.
        + intros Hx. exists (renderPath a x). split; [apply Hall, Hx|].
          rewrite (Hc x Hx), String.eqb_refl. left. reflexivity. }
    destruct (kinds_of_resources accountData) as (Eu & Eg & Er & Ep).
    rewrite Hu, Hg, Hr, Hp, <- Eu, <- Eg, <- Er, <- Ep.
    unfold users_of, groups_of, roles_of, policies_of.
    repeat split; apply Permutation_flat_map; exact P.
Qed.

Lemma load_after_dump_witness :
  let os := demo_os ["999/role/svc/deploy.yaml"; "other/keep.txt"]
                    (reading dumped_999) in
  (Dump os deploy_yaml "root" account_999 true stray_tree).2 = None /\
  exists accts,
    snd (Load os deploy_yaml "root") = Returns (accts, None) /\
    exists ad, accts = [ad] /\ ad_Account ad = ad_Account account_999 /\
               Permutation (Users ad) (Users account_999) /\
               Permutation (Groups ad) (Groups account_999) /\
               Permutation (Roles ad) (Roles account_999) /\
               Permutation (Policies ad) (Policies account_999).
Proof.
  intros os.
  assert (H : (Dump os deploy_yaml "root" account_999 true stray_tree).2 = None)
    by (vm_compute; reflexivity).
  split; [exact H|].
  refine (load_after_dump os deploy_yaml "root" account_999 true stray_tree
            ["999/role/svc/deploy.yaml"; "other/keep.txt"]
            H _ safe_deploy _ decodes_deploy eq_refl _ _ _ (reads_dumped_999 _)).
  - vm_compute. reflexivity.
  - apply NoDup_singleton.
  - apply (bool_decide_unpack _). vm_compute. reflexivity.
  - intros r [<- | []]. left. reflexivity.
  - intros fp [<- | [<- | []]] [res Hm].
    + exists deploy_role. split; [left|]; reflexivity.
    + vm_compute in Hm. discriminate Hm.
Defined.

(** * Runs *)

Example parse_prod : NewAccountFromString "prod-123456789012"
                     = Returns {| Id := "123456789012"; Alias := "prod" |}.
Proof. vm_compute. reflexivity. Qed.

Example parse_bare : NewAccountFromString "123456789012"
                     = Returns {| Id := "123456789012"; Alias := "" |}.
Proof. vm_compute. reflexivity. Qed.

Example parse_two_hyphens : NewAccountFromString "a-1-2"
                     = Returns {| Id := "2"; Alias := "a-1" |}.
Proof. vm_compute. reflexivity. Qed.

Example parse_bad : NewAccountFromString "abc"
                     = Panics "Can't create account name from abc".
Proof. vm_compute. reflexivity. Qed.

Example load_bob :
  snd (Load (demo_os ["prod-123456789012/user/bob.yaml"; "readme.txt"] readable)
            demo_yaml "root")
  = Returns ([{| ad_Account := {| Id := "123456789012"; Alias := "prod" |};
                 Users := [{| u_Name := "bob"; u_Path := "/"; u_Groups := [];
                              u_InlinePolicies := []; u_Policies := ["ReadOnly"] |}];
                 Groups := []; Roles := []; Policies := [] |}], None).
Proof. vm_compute. reflexivity. Qed.

Example character_classes :
  is_word "_" = true /\ is_word "-" = false /\ is_word "a" = true /\
  is_word "Z" = true /\ is_word "0" = true /\ is_word "/" = false /\
  is_digit "9" = true /\ is_digit "a" = false /\
  is_dot "/" = true /\ is_dot "010" = false.
Proof. repeat split; reflexivity. Qed.
